(** * Plant Doctor: the scan acquisition and analysis pipeline

    A shallow embedding of the three page components of the application
    (the file-upload page [Upload], the history page [History] and the camera
    page [Scan]) together with the remote collaborators they talk to: the
    object-storage bucket ['plant-images'], the edge function
    ['analyze-plant'], the table ['plant_scans'] and the camera device.

    Conventions of the embedding:
    - an [async] handler is a function from the world before the call to the
      world after its promise has settled; every handler of the source catches
      whatever its body throws, so the promise always resolves to [undefined]
      and the handler has no return value of its own; calls that overlap,
      each going on where it waited, are run with [Async];
    - [try]/[catch]/[finally] are written with a small state-and-exception
      monad, [Eff];
    - what a remote collaborator answers is not decided by the pages: the
      answers are collected in a record [Remote] that a handler receives;
    - JavaScript numbers that the pages only pass around (the confidence
      score) are rationals; where a page computes with a number (the
      percentage it shows) the number is a binary64 value, in [Double]. *)

From Stdlib Require Import QArith Qround Ascii DecimalString.
From Stdlib Require Import DecimalN DecimalPos.
From Stdlib Require SpecFloat.
From stdpp Require Import gmap strings list fin_maps.

Open Scope string_scope.

(** ** JavaScript values and helpers *)

Module Js.

(** [String.prototype.startsWith]. *)
Fixpoint startsWith (p s : string) : bool :=
  match p, s with
  | EmptyString, _ => true
  | String a p', String b s' => if Ascii.eqb a b then startsWith p' s' else false
  | String _ _, EmptyString => false
  end.

(** The scan behind [s.split(sep)] for a non-empty separator [sep]:
    [skip] counts the characters of a separator occurrence still to be
    dropped, [cur] is the piece being collected. *)
Fixpoint split_go (sep s : string) (skip : nat) (cur : string) : list string :=
  match s with
  | EmptyString => [cur]
  | String c s' =>
      match skip with
      | S k => split_go sep s' k cur
      | O =>
          if startsWith sep s
          then cur :: split_go sep s' (String.length sep - 1) EmptyString
          else split_go sep s' O (cur +:+ String c EmptyString)
      end
  end.

(** [s.split(sep)]; the pages only split on the literals ['.'] and
    ['/plant-images/']. *)
Definition split (sep s : string) : list string := split_go sep s O EmptyString.

(** Interpolation of a possibly [undefined] string in a template literal. *)
Definition interpolate (o : option string) : string := default "undefined" o.

(** [String(n)] for a non-negative integer such as [Date.now()]. *)
Definition string_of_N (n : N) : string := NilZero.string_of_uint (N.to_uint n).

(** Truthiness of a value that is a string, [null] or [undefined]. *)
Definition truthy_string (o : option string) : bool :=
  match o with
  | Some (String _ _) => true
  | _ => false
  end.

(** Truthiness of a value that is an object, [null] or [undefined]. *)
Definition truthy_object {A} (o : option A) : bool :=
  match o with Some _ => true | None => false end.

(** Truthiness of a value that is a number, [null] or [undefined]. *)
Definition truthy_number (o : option Q) : bool :=
  match o with
  | Some q => negb (Qeq_bool q 0)
  | None => false
  end.

(** [Math.round]: the nearest integer, halves upwards. *)
Definition Math_round (q : Q) : Z := Qfloor (q + (1 # 2)).

(** A thrown or returned error; [message] may be missing. *)
Record Error := mkError { message : option string }.

(** [error.message || fallback]. *)
Definition message_or (e : Error) (fallback : string) : string :=
  if truthy_string (message e) then interpolate (message e) else fallback.

(** Reading a property of [null]. *)
Definition TypeError_null (prop : string) : Error :=
  mkError (Some ("Cannot read properties of null (reading '" +:+ prop +:+ "')")).

(** [s.includes(sep)]. *)
Fixpoint includes (sep s : string) : bool :=
  startsWith sep s ||
  match s with
  | EmptyString => false
  | String _ s' => includes sep s'
  end.

(** [s.slice(0, n)]. *)
Fixpoint slice_to (n : nat) (s : string) : string :=
  match n, s with
  | S k, String c s' => String c (slice_to k s')
  | _, _ => EmptyString
  end.

(** [a || fallback] for [a] a string, [null] or [undefined]. *)
Definition or_string (a : option string) (fallback : string) : string :=
  if truthy_string a then interpolate a else fallback.

End Js.

Import Js.

(** ** Data model *)

Definition Blob := list Byte.byte.

(** The browser's [File]. *)
Record File := mkFile { name : string; bytes : Blob }.

(** The authenticated [User]; only its [id] is read. *)
Record User := mkUser { id : string }.

(** The body the edge function ['analyze-plant'] answers with; the pages
    read four properties, each of which may be absent. *)
Record AnalysisData := mkAnalysisData {
  disease : option string;
  diagnosis : option string;
  recommendations : option string;
  confidence : option Q
}.

(** The object passed to [insert] on ['plant_scans']. *)
Record ScanInsert := mkScanInsert {
  user_id : string;
  image_url : string;
  disease_detected : option string;
  diagnosis_text : option string;
  recommendations_text : option string;
  confidence_score : option Q
}.

(** A row of ['plant_scans']: the inserted columns with the key and the
    creation time the database adds. *)
Record DbRow := mkDbRow {
  row_id : string;
  created_at : string;
  columns : ScanInsert
}.

(** [{ data, error }] as answered by [supabase.functions.invoke]. *)
Record InvokeResponse := mkInvokeResponse {
  inv_data : option AnalysisData;
  inv_error : option Error
}.

(** ** Events the pages cause, in order *)

Inductive Event :=
| EvUpload (path : string) (body : Blob)
| EvGetPublicUrl (path : string)
| EvInvoke (imageUrl : string)
| EvInsert (row : ScanInsert)
| EvRemove (paths : list string)
| EvDelete (scanId : string)
| EvFetch (url : string)
| EvGetUserMedia
| EvConsoleError (label : string) (e : Error)
| EvToastSuccess (text : string)
| EvToastError (text : string).

Definition is_insert (e : Event) : bool :=
  match e with EvInsert _ => true | _ => false end.
Definition is_upload (e : Event) : bool :=
  match e with EvUpload _ _ => true | _ => false end.
Definition is_remove (e : Event) : bool :=
  match e with EvRemove _ => true | _ => false end.
Definition is_getUserMedia (e : Event) : bool :=
  match e with EvGetUserMedia => true | _ => false end.
Definition is_toast_success (e : Event) : bool :=
  match e with EvToastSuccess _ => true | _ => false end.
Definition is_toast_error (e : Event) : bool :=
  match e with EvToastError _ => true | _ => false end.
Definition is_console_error (e : Event) : bool :=
  match e with EvConsoleError _ _ => true | _ => false end.

(** What reaches the user or the developer console: toasts and console
    lines, as opposed to requests sent to a collaborator. *)
Definition is_feedback (e : Event) : bool :=
  is_toast_success e || is_toast_error e || is_console_error e.

(** ** The camera device *)

(** A [MediaStreamTrack]: [ended] is [readyState === 'ended'];
    [stop_calls] counts the calls of [track.stop()]. *)
Record Track := mkTrack { ended : bool; stop_calls : nat }.

(** A [MediaStream] is its list of tracks. *)
Definition MediaStream := list Track.

(** [track.stop()]: idempotent on the track's state. *)
Definition track_stop (t : Track) : Track :=
  mkTrack true (S (stop_calls t)).

(** [stream.active]: some track has not ended. *)
Definition stream_active (s : MediaStream) : bool :=
  existsb (fun t => negb (ended t)) s.

(** [stream.getTracks().forEach(track => track.stop())]. *)
Definition stop_tracks (s : MediaStream) : MediaStream := map track_stop s.

(** Whether the stream at position [i] of the device is active. *)
Definition is_active (cam : list MediaStream) (i : nat) : bool :=
  match cam !! i with
  | Some s => stream_active s
  | None => false
  end.

(** The streams of the device that are active. *)
Definition active_streams (cam : list MediaStream) : list nat :=
  filter (fun i => is_active cam i = true) (seq 0 (length cam)).

(** ** The answers of the collaborators *)

Record Remote := mkRemote {
  (** [Date.now()] *)
  Date_now : N;
  (** [error] of [storage.from('plant-images').upload(path, body)] *)
  storage_upload : string -> Blob -> option Error;
  (** [data.publicUrl] of [getPublicUrl(path)] *)
  storage_publicUrl : string -> string;
  (** [error] of [storage.from('plant-images').remove(paths)] *)
  storage_remove : list string -> option Error;
  (** [functions.invoke('analyze-plant', { body: { imageUrl } })] *)
  functions_invoke : string -> InvokeResponse;
  (** [error] of [from('plant_scans').insert(row)], and the key and
      creation time the database gives an accepted row *)
  db_insert : ScanInsert -> option Error;
  db_row_id : string;
  db_created_at : string;
  (** [error] of [from('plant_scans').delete().eq('id', scanId)] *)
  db_delete : string -> option Error;
  (** [fetch(url)] followed by [response.blob()] *)
  fetch_blob : string -> Error + Blob;
  (** [navigator.mediaDevices.getUserMedia]: a rejection, or the number of
      tracks of the granted stream *)
  getUserMedia : Error + nat;
  (** whether [canvas.getContext("2d")] gives a context, and what
      [canvas.toDataURL("image/jpeg")] returns *)
  canvas_context : bool;
  canvas_toDataURL : string
}.

(** ** The world a page runs in *)

(** [ui] is the state of the page component; the bucket maps a path to the
    object stored there; [camera] holds every stream the device has handed
    out, a stream being identified by its position. *)
Record World (C : Type) := mkWorld {
  ui : C;
  storage : gmap string Blob;
  plant_scans : list DbRow;
  camera : list MediaStream;
  log : list Event
}.
Arguments mkWorld {C}.
Arguments ui {C}.
Arguments storage {C}.
Arguments plant_scans {C}.
Arguments camera {C}.
Arguments log {C}.

Section WorldUpdates.
Context {C : Type}.

Definition set_ui (f : C -> C) (w : World C) : World C :=
  mkWorld (f (ui w)) (storage w) (plant_scans w) (camera w) (log w).
Definition set_storage (f : gmap string Blob -> gmap string Blob) (w : World C) : World C :=
  mkWorld (ui w) (f (storage w)) (plant_scans w) (camera w) (log w).
Definition set_plant_scans (f : list DbRow -> list DbRow) (w : World C) : World C :=
  mkWorld (ui w) (storage w) (f (plant_scans w)) (camera w) (log w).
Definition set_camera (f : list MediaStream -> list MediaStream) (w : World C) : World C :=
  mkWorld (ui w) (storage w) (plant_scans w) (f (camera w)) (log w).
Definition emit (e : Event) (w : World C) : World C :=
  mkWorld (ui w) (storage w) (plant_scans w) (camera w) ((log w ++ [e])%list).
End WorldUpdates.

(** ** Effects: state and exceptions *)

Definition Eff (C A : Type) : Type := World C -> (Error + A) * World C.

Section EffOps.
Context {C : Type}.

Definition ret {A} (a : A) : Eff C A := fun w => (inr a, w).
Definition throw {A} (e : Error) : Eff C A := fun w => (inl e, w).
Definition bind {A B} (m : Eff C A) (k : A -> Eff C B) : Eff C B :=
  fun w => match m w with
           | (inl e, w') => (inl e, w')
           | (inr a, w') => k a w'
           end.
(** A statement executed for its effect on the world. *)
Definition exec (f : World C -> World C) : Eff C unit := fun w => (inr tt, f w).
(** [if (error) throw error]. *)
Definition throw_if (o : option Error) : Eff C unit :=
  match o with Some e => throw e | None => ret tt end.
(** [try { body } catch (error) { handler(error) } finally { fin }]
    for a handler and a finaliser that do not throw. *)
Definition try_catch_finally (body : Eff C unit)
    (handler : Error -> World C -> World C) (fin : World C -> World C)
    : World C -> World C :=
  fun w => match body w with
           | (inl e, w') => fin (handler e w')
           | (inr _, w') => fin w'
           end.
(** [try { body } catch (error) { handler(error) }]. *)
Definition try_catch (body : Eff C unit)
    (handler : Error -> World C -> World C) : World C -> World C :=
  try_catch_finally body handler (fun w => w).
End EffOps.

Notation "'let!' x ':=' m 'in' k" := (bind m (fun x => k))
  (at level 10, x pattern, m at level 100, k at level 200).
Notation "'do!' m 'in' k" := (bind m (fun _ => k))
  (at level 10, m at level 100, k at level 200).

(** ** Requests to the collaborators *)

Section Requests.
Context {C : Type} (env : Remote).

(** [await storage.from('plant-images').upload(path, body)]: the answer
    is the collaborator's; an accepted object is in the bucket. *)
Definition upload (path : string) (body : Blob) : Eff C (option Error) :=
  fun w =>
    let w := emit (EvUpload path body) w in
    match storage_upload env path body with
    | Some e => (inr (Some e), w)
    | None => (inr None, set_storage (insert path body) w)
    end.

(** [storage.from('plant-images').getPublicUrl(path)]: local. *)
Definition getPublicUrl (path : string) : Eff C string :=
  fun w => (inr (storage_publicUrl env path), emit (EvGetPublicUrl path) w).

(** [await storage.from('plant-images').remove(paths)]. *)
Definition remove (paths : list string) : Eff C (option Error) :=
  fun w =>
    let w := emit (EvRemove paths) w in
    match storage_remove env paths with
    | Some e => (inr (Some e), w)
    | None => (inr None, set_storage (fun m => foldr delete m paths) w)
    end.

(** [await functions.invoke('analyze-plant', { body: { imageUrl } })]. *)
Definition invoke (imageUrl : string) : Eff C InvokeResponse :=
  fun w => (inr (functions_invoke env imageUrl), emit (EvInvoke imageUrl) w).

(** [await from('plant_scans').insert(row)]: an accepted row is in the
    table. *)
Definition insert_scan (row : ScanInsert) : Eff C (option Error) :=
  fun w =>
    let w := emit (EvInsert row) w in
    match db_insert env row with
    | Some e => (inr (Some e), w)
    | None =>
        (inr None,
         set_plant_scans
           (fun t => (t ++ [mkDbRow (db_row_id env) (db_created_at env) row])%list) w)
    end.

(** [await from('plant_scans').delete().eq('id', scanId)]. *)
Definition delete_scan (scanId : string) : Eff C (option Error) :=
  fun w =>
    let w := emit (EvDelete scanId) w in
    match db_delete env scanId with
    | Some e => (inr (Some e), w)
    | None =>
        (inr None,
         set_plant_scans
           (filter (fun r => row_id r ≠ scanId)) w)
    end.

(** The object literal passed to [insert]; reading a property of a
    [null] body throws before the request is made. *)
Definition scan_row (u : User) (publicUrl : string)
    (analysisData : option AnalysisData) : Eff C ScanInsert :=
  match analysisData with
  | None => throw (TypeError_null "disease")
  | Some d =>
      ret (mkScanInsert (id u) publicUrl (disease d) (diagnosis d)
             (recommendations d) (confidence d))
  end.
End Requests.

(** ** Calls that overlap *)

(** An [async] function runs until its first [await] and hands control
    back to the page; it goes on when the awaited promise has settled, and
    other handlers may have run in between. [Async C A] is such a call as
    the code it still has to run: none, a statement to run now, or a request
    to make now and the code that waits for its answer. A request acts on
    its collaborator when it is made. *)
Inductive Async (C A : Type) : Type :=
| Finished (r : Error + A)
| Now {X : Type} (m : Eff C X) (k : X -> Async C A)
| Await {X : Type} (m : Eff C X) (k : X -> Async C A).
Arguments Finished {C A}.
Arguments Now {C A X}.
Arguments Await {C A X}.

Section AsyncOps.
Context {C : Type}.

Fixpoint abind {A B} (t : Async C A) (f : A -> Async C B) : Async C B :=
  match t with
  | Finished (inr a) => f a
  | Finished (inl e) => Finished (inl e)
  | Now m k => Now m (fun x => abind (k x) f)
  | Await m k => Await m (fun x => abind (k x) f)
  end.

(** A statement, and [await m]. *)
Definition now {A} (m : Eff C A) : Async C A := Now m (fun a => Finished (inr a)).
Definition await {A} (m : Eff C A) : Async C A := Await m (fun a => Finished (inr a)).

(** What [m] answers, an exception it throws included. *)
Definition caught {X} (m : Eff C X) : Eff C (Error + X) :=
  fun w => let '(r, w') := m w in (inr r, w').

(** [try { body } catch (error) { handler(error) } finally { fin }] around
    code that awaits. *)
Fixpoint atry_catch_finally (body : Async C unit)
    (handler : Error -> World C -> World C) (fin : World C -> World C)
    : Async C unit :=
  match body with
  | Finished (inr _) => now (exec fin)
  | Finished (inl e) => now (exec (fun w => fin (handler e w)))
  | Now m k =>
      Now (caught m) (fun r =>
        match r with
        | inl e => now (exec (fun w => fin (handler e w)))
        | inr x => atry_catch_finally (k x) handler fin
        end)
  | Await m k =>
      Await (caught m) (fun r =>
        match r with
        | inl e => now (exec (fun w => fin (handler e w)))
        | inr x => atry_catch_finally (k x) handler fin
        end)
  end.

(** A call runs until it waits or ends: what is left of it, and the world
    it leaves. *)
Fixpoint advance {A} (t : Async C A) (w : World C) : Async C A * World C :=
  match t with
  | Finished r => (Finished r, w)
  | Now m k =>
      match m w with
      | (inl e, w') => (Finished (inl e), w')
      | (inr x, w') => advance (k x) w'
      end
  | Await m k =>
      match m w with
      | (inl e, w') => (Finished (inl e), w')
      | (inr x, w') => (k x, w')
      end
  end.

(** A call runs to its end with nothing in between. *)
Fixpoint finish {A} (t : Async C A) (w : World C) : (Error + A) * World C :=
  match t with
  | Finished r => (r, w)
  | Now m k =>
      match m w with
      | (inl e, w') => (inl e, w')
      | (inr x, w') => finish (k x) w'
      end
  | Await m k =>
      match m w with
      | (inl e, w') => (inl e, w')
      | (inr x, w') => finish (k x) w'
      end
  end.

(** A page in use: its world, and the calls made so far, each as what is
    left of it. *)
Record Live := mkLive {
  page : World C;
  calls : list (Async C unit)
}.

(** A handler is called: it runs until it waits or ends, and the page
    renders. *)
Definition press (render : World C -> World C) (t : Async C unit) (l : Live) : Live :=
  let '(t', w) := advance t (page l) in
  mkLive (render w) (calls l ++ [t'])%list.

(** The promise the [k]-th call waits for has settled: the call goes on
    until it waits again or ends, and the page renders. *)
Definition settle (render : World C -> World C) (k : nat) (l : Live) : Live :=
  match calls l !! k with
  | Some t =>
      let '(t', w) := advance t (page l) in
      mkLive (render w) (<[k := t']> (calls l))
  | None => l
  end.

(** Whether a call still waits for an answer. *)
Definition waiting {A} (t : Async C A) : bool :=
  match t with Finished _ => false | _ => true end.
End AsyncOps.
Arguments Live : clear implicits.

Notation "'let!!' x ':=' m 'in' k" := (abind m (fun x => k))
  (at level 10, x pattern, m at level 100, k at level 200).
Notation "'do!!' m 'in' k" := (abind m (fun _ => k))
  (at level 10, m at level 100, k at level 200).

(** ** What a page shows for a confidence value *)

(** The result of the JSX expression
    [{c && (<div>... {Math.round(c * 100)}% ...</div>)}]:
    a falsy [c] is rendered as itself, so [null] and [undefined] show
    nothing and the number [0] shows the text [0]. *)
Inductive Rendered :=
| RenderNothing
| RenderZero
| RenderPercent (percent : Z).

Definition render_confidence (c : option Q) : Rendered :=
  match c with
  | None => RenderNothing
  | Some q =>
      if truthy_number (Some q)
      then RenderPercent (Math_round (q * 100))
      else RenderZero
  end.

(** A number lies in the closed unit interval. *)
Definition in_unit_interval (q : Q) : bool := Qle_bool 0 q && Qle_bool q 1.

(** ** Numbers as the pages compute with them *)

(** A JavaScript number is an IEEE 754 binary64 value, [spec_float]: a
    zero, an infinity, [NaN], or a finite [(-1)^s * m * 2^e]. *)
Module Double.
Import SpecFloat.

(** [x * y]: the exact product rounded to the nearest binary64 value, ties
    to even (a mantissa of 53 bits, exponents below 1024). *)
Definition times (x y : spec_float) : spec_float := SFmul 53 1024 x y.

(** The literal [100], 25 * 2^2 with a mantissa of 53 bits. *)
Definition hundred : spec_float := S754_finite false 7036874417766400 (-46).

(** The exact value of [m * 2^e]. *)
Definition exact (m : positive) (e : Z) : Q :=
  match e with
  | Z0 => Zpos m # 1
  | Zpos p => (Zpos m * 2 ^ Zpos p) # 1
  | Zneg p => Zpos m # (2 ^ p)
  end.

(** The value of a number that is finite. *)
Definition value (x : spec_float) : option Q :=
  match x with
  | S754_zero _ => Some 0%Q
  | S754_finite s m e => Some (if s then (- exact m e)%Q else exact m e)
  | S754_infinity _ | S754_nan => None
  end.

(** [0], [-0] and [NaN] are falsy. *)
Definition truthy (x : spec_float) : bool :=
  match x with
  | S754_zero _ | S754_nan => false
  | S754_infinity _ | S754_finite _ _ _ => true
  end.

(** [Math.round(x)] of a finite [x]: the closest integer, the larger one
    of two that are equally close. *)
Definition round (x : spec_float) : option Z := option_map Math_round (value x).

(** What a page shows for [{c && (<div>... {Math.round(c * 100)}% ...</div>)}]
    when [c] is a number or absent: a falsy number is shown as itself, and
    [None] for the percentage stands for an infinity. *)
Inductive Shown :=
| ShownNothing
| ShownNumber (x : spec_float)
| ShownPercent (p : option Z).

Definition render_confidence (c : option spec_float) : Shown :=
  match c with
  | None => ShownNothing
  | Some x =>
      if truthy x then ShownPercent (round (times x hundred)) else ShownNumber x
  end.

End Double.

(** ** The upload page *)

Module Upload.

(** The [useState] cells of the component. *)
Record State := mkState {
  user : option User;
  loading : bool;
  selectedFile : option File;
  previewUrl : option string;
  analyzing : bool;
  result : option AnalysisData
}.

Definition setAnalyzing (b : bool) (s : State) : State :=
  mkState (user s) (loading s) (selectedFile s) (previewUrl s) b (result s).
Definition setResult (r : option AnalysisData) (s : State) : State :=
  mkState (user s) (loading s) (selectedFile s) (previewUrl s) (analyzing s) r.

(** [selectedFile.name.split('.').pop()]. *)
Definition fileExt (f : File) : option string := last (split "." (name f)).

(** [`${user.id}/${Date.now()}.${fileExt}`]. *)
Definition fileName (env : Remote) (u : User) (f : File) : string :=
  id u +:+ "/" +:+ string_of_N (Date_now env) +:+ "." +:+ interpolate (fileExt f).

(** The [try] block of [handleAnalyze]. *)
Definition handleAnalyze_try (env : Remote) (f : File) (u : User) : Eff State unit :=
  let path := fileName env u f in
  let! uploadError := upload env path (bytes f) in
  do! throw_if uploadError in
  let! publicUrl := getPublicUrl env path in
  let! response := invoke env publicUrl in
  do! throw_if (inv_error response) in
  let! row := scan_row u publicUrl (inv_data response) in
  let! dbError := insert_scan env row in
  do! throw_if dbError in
  do! exec (set_ui (setResult (inv_data response))) in
  exec (emit (EvToastSuccess "Analysis complete!")).

(** The [catch] block of [handleAnalyze]. *)
Definition handleAnalyze_catch (e : Error) (w : World State) : World State :=
  emit (EvToastError (message_or e "Failed to analyze image"))
    (emit (EvConsoleError "Analysis error:" e) w).

(** [handleAnalyze]. *)
Definition handleAnalyze (env : Remote) (w : World State) : World State :=
  match selectedFile (ui w), user (ui w) with
  | Some f, Some u =>
      try_catch_finally (handleAnalyze_try env f u) handleAnalyze_catch
        (set_ui (setAnalyzing false))
        (set_ui (setAnalyzing true) w)
  | _, _ => w
  end.

(** The confidence block of the result card. *)
Definition render_result_confidence (s : State) : Rendered :=
  match result s with
  | Some r => render_confidence (confidence r)
  | None => RenderNothing
  end.

Definition setSelectedFile (f : option File) (s : State) : State :=
  mkState (user s) (loading s) f (previewUrl s) (analyzing s) (result s).
Definition setPreviewUrl (o : option string) (s : State) : State :=
  mkState (user s) (loading s) (selectedFile s) o (analyzing s) (result s).

(** [handleFileSelect]: [file] is [e.target.files?.[0]] and [url] what
    [URL.createObjectURL(file)] returns. *)
Definition handleFileSelect (file : option File) (url : string) (s : State) : State :=
  match file with
  | Some f => setResult None (setPreviewUrl (Some url) (setSelectedFile (Some f) s))
  | None => s
  end.

(** The [onClick] of the Analyze Another Plant button. *)
Definition analyzeAnother (s : State) : State :=
  setResult None (setPreviewUrl None (setSelectedFile None s)).

(** The result card: the disease line, the two paragraphs and the
    confidence block. *)
Record ResultCard := mkResultCard {
  shown_disease : string;
  shown_diagnosis : option string;
  shown_recommendations : option string;
  shown_confidence : Rendered
}.

(** What the card of the page shows: the preview image when [previewUrl]
    is truthy; the Analyze button, with its [disabled] flag and its label,
    when [selectedFile && !result]; the result card when [result]. *)
Record View := mkView {
  view_preview : option string;
  view_analyze : option (bool * string);
  view_result : option ResultCard
}.

Definition view (s : State) : View :=
  mkView
    (if truthy_string (previewUrl s) then previewUrl s else None)
    (if truthy_object (selectedFile s) && negb (truthy_object (result s))
     then Some (analyzing s, if analyzing s then "Analyzing..." else "Analyze Plant")
     else None)
    (match result s with
     | Some r =>
         Some (mkResultCard (or_string (disease r) "No disease detected")
                 (diagnosis r) (recommendations r) (render_confidence (confidence r)))
     | None => None
     end).

End Upload.

(** ** The history page *)

Module History.

(** The [useState] cells of the component; a listed scan is a row of the
    table. *)
Record State := mkState {
  user : option User;
  scans : list DbRow;
  loading : bool
}.

Definition setScans (l : list DbRow) (s : State) : State :=
  mkState (user s) l (loading s).

(** [imageUrl.split('/plant-images/')[1]]. *)
Definition filePath (imageUrl : string) : option string :=
  split "/plant-images/" imageUrl !! 1%nat.

(** The path [deleteScan] asks the bucket to remove: [filePath] when
    [if (filePath)] lets it through. *)
Definition removed_path (imageUrl : string) : option string :=
  match filePath imageUrl with
  | Some p => if truthy_string (Some p) then Some p else None
  | None => None
  end.

(** The [try] block of [deleteScan]; the answer of [remove] is dropped. *)
Definition deleteScan_try (env : Remote) (scanId imageUrl : string)
    : Eff State unit :=
  do! (match removed_path imageUrl with
       | Some p => let! _ := remove env [p] in ret tt
       | None => ret tt
       end) in
  let! error := delete_scan env scanId in
  do! throw_if error in
  do! exec (fun w =>
        set_ui (setScans (filter (fun scan => row_id scan ≠ scanId) (scans (ui w)))) w) in
  exec (emit (EvToastSuccess "Scan deleted")).

(** [deleteScan]. *)
Definition deleteScan (env : Remote) (scanId imageUrl : string)
    (w : World State) : World State :=
  try_catch (deleteScan_try env scanId imageUrl)
    (fun _ => emit (EvToastError "Failed to delete scan")) w.

(** The confidence block of a scan card. *)
Definition render_scan_confidence (scan : DbRow) : Rendered :=
  render_confidence (confidence_score (columns scan)).

Definition setLoading (b : bool) (s : State) : State :=
  mkState (user s) (scans s) b.

(** [{ data, error }] as answered by the query of [loadScans]:
    [from('plant_scans').select('*').eq('user_id', userId)
    .order('created_at', { ascending: false })]. *)
Record SelectResponse := mkSelectResponse {
  sel_data : option (list DbRow);
  sel_error : option Error
}.

(** The [try] block of [loadScans]. *)
Definition loadScans_try (response : SelectResponse) : Eff State unit :=
  do! throw_if (sel_error response) in
  exec (set_ui (setScans (default [] (sel_data response)))).

(** [loadScans], for the answer the table gives to its query. *)
Definition loadScans (response : SelectResponse) (w : World State) : World State :=
  try_catch_finally (loadScans_try response)
    (fun _ => emit (EvToastError "Failed to load scan history"))
    (set_ui (setLoading false)) w.

(** The diagnosis block of a scan card:
    [{scan.diagnosis && (... {scan.diagnosis.slice(0, 100)}... )}]. *)
Definition render_diagnosis (d : option string) : option string :=
  if truthy_string d then Some (slice_to 100 (interpolate d) +:+ "...") else None.

(** A card of the list: the image, the disease line, the diagnosis line
    and the confidence block (the date line is left out). *)
Record Card := mkCard {
  card_image : string;
  card_disease : string;
  card_diagnosis : option string;
  card_confidence : Rendered
}.

Definition card (scan : DbRow) : Card :=
  mkCard (image_url (columns scan))
    (or_string (disease_detected (columns scan)) "None detected")
    (render_diagnosis (diagnosis_text (columns scan)))
    (render_scan_confidence scan).

(** The body of the page: [loading ? ... : scans.length === 0 ? ... : ...]. *)
Inductive Body :=
| Loading
| NoScansYet
| Cards (cards : list Card).

Definition body (s : State) : Body :=
  if loading s then Loading
  else match scans s with
       | [] => NoScansYet
       | l => Cards (map card l)
       end.

(** The component as first mounted. *)
Definition initial_state : State := mkState None [] true.

(** [deleteScan] is a closure of the render that created it: [scans] in
    [setScans(scans.filter(scan => scan.id !== scanId))] is the list that
    render showed, [seen], whatever list the state holds by the time the
    call gets there. [deleteScan] above is the handler of the render of the
    current state. *)
Definition deleteScan_try_of (seen : list DbRow) (env : Remote)
    (scanId imageUrl : string) : Eff State unit :=
  do! (match removed_path imageUrl with
       | Some p => let! _ := remove env [p] in ret tt
       | None => ret tt
       end) in
  let! error := delete_scan env scanId in
  do! throw_if error in
  do! exec (set_ui (setScans (filter (fun scan => row_id scan ≠ scanId) seen))) in
  exec (emit (EvToastSuccess "Scan deleted")).

Definition deleteScan_of (seen : list DbRow) (env : Remote)
    (scanId imageUrl : string) (w : World State) : World State :=
  try_catch (deleteScan_try_of seen env scanId imageUrl)
    (fun _ => emit (EvToastError "Failed to delete scan")) w.

(** [deleteScan] with its two [await]s, as the handler of a render that
    showed [seen]. *)
Definition deleteScan_async (seen : list DbRow) (env : Remote)
    (scanId imageUrl : string) : Async State unit :=
  atry_catch_finally
    (do!! (match removed_path imageUrl with
           | Some p => let!! _ := await (remove env [p]) in Finished (inr tt)
           | None => Finished (inr tt)
           end) in
     let!! error := await (delete_scan env scanId) in
     do!! now (throw_if error) in
     do!! now (exec (set_ui (setScans (filter (fun scan => row_id scan ≠ scanId) seen)))) in
     now (exec (emit (EvToastSuccess "Scan deleted"))))
    (fun _ => emit (EvToastError "Failed to delete scan")) (fun w => w).

(** What the user and the collaborators do to the page: a Delete button
    of the list is used, or the promise a call waits for settles. The
    handler called is the one of the render of the current list. *)
Inductive Move :=
| PressDelete (env : Remote) (scanId imageUrl : string)
| Settle (k : nat).

Definition move (m : Move) (l : Live State) : Live State :=
  match m with
  | PressDelete env scanId imageUrl =>
      press (fun w => w) (deleteScan_async (scans (ui (page l))) env scanId imageUrl) l
  | Settle k => settle (fun w => w) k l
  end.

Definition moves (ms : list Move) (l : Live State) : Live State :=
  foldl (fun l m => move m l) l ms.

End History.

(** ** The camera page *)

Module Scan.

(** The [useState] cells of the component; a [MediaStream] object is named
    by its position in the device's list of streams. *)
Record State := mkState {
  user : option User;
  stream : option nat;
  capturing : bool;
  analyzing : bool;
  capturedImage : option string;
  result : option AnalysisData
}.

(** The component between two renders: its state, its two refs, and the
    stream captured by the closure of the stream effect that ran last
    ([useEffect(() => () => { if (stream) ... }, [stream])]).
    [videoRef] is [Some v] when the [<video>] element is mounted, [v] being
    its [srcObject]; [canvasRef] tells whether the [<canvas>] is mounted. *)
Record Comp := mkComp {
  state : State;
  videoRef : option (option nat);
  canvasRef : bool;
  effect_stream : option nat
}.

Definition set_state (f : State -> State) (c : Comp) : Comp :=
  mkComp (f (state c)) (videoRef c) (canvasRef c) (effect_stream c).

Definition setStream (o : option nat) (s : State) : State :=
  mkState (user s) o (capturing s) (analyzing s) (capturedImage s) (result s).
Definition setCapturing (b : bool) (s : State) : State :=
  mkState (user s) (stream s) b (analyzing s) (capturedImage s) (result s).
Definition setAnalyzing (b : bool) (s : State) : State :=
  mkState (user s) (stream s) (capturing s) b (capturedImage s) (result s).
Definition setCapturedImage (o : option string) (s : State) : State :=
  mkState (user s) (stream s) (capturing s) (analyzing s) o (result s).
Definition setResult (r : option AnalysisData) (s : State) : State :=
  mkState (user s) (stream s) (capturing s) (analyzing s) (capturedImage s) r.

(** [if (videoRef.current) videoRef.current.srcObject = mediaStream]. *)
Definition set_srcObject (sid : nat) (c : Comp) : Comp :=
  match videoRef c with
  | Some _ => mkComp (state c) (Some (Some sid)) (canvasRef c) (effect_stream c)
  | None => c
  end.

(** [sid.getTracks().forEach(track => track.stop())] on the device. *)
Definition stop_stream (sid : nat) (w : World Comp) : World Comp :=
  set_camera (alter stop_tracks sid) w.

(** [await navigator.mediaDevices.getUserMedia({ video: ... })]: a granted
    request hands out a new stream of live tracks. *)
Definition acquire (env : Remote) : Eff Comp nat :=
  fun w =>
    let w := emit EvGetUserMedia w in
    match getUserMedia env with
    | inl e => (inl e, w)
    | inr n =>
        (inr (length (camera w)),
         set_camera (fun l => (l ++ [replicate n (mkTrack false 0)])%list) w)
    end.

(** The [try] block of [startCamera]. *)
Definition startCamera_try (env : Remote) : Eff Comp unit :=
  let! mediaStream := acquire env in
  do! exec (set_ui (set_state (setStream (Some mediaStream)))) in
  do! exec (set_ui (set_srcObject mediaStream)) in
  exec (set_ui (set_state (setCapturing true))).

(** [startCamera]. *)
Definition startCamera (env : Remote) (w : World Comp) : World Comp :=
  try_catch (startCamera_try env)
    (fun _ => emit (EvToastError "Failed to access camera")) w.

(** [stopCamera]; [stream] is the value of the current render. *)
Definition stopCamera (w : World Comp) : World Comp :=
  let w' :=
    match stream (state (ui w)) with
    | Some sid => set_ui (set_state (setStream None)) (stop_stream sid w)
    | None => w
    end in
  set_ui (set_state (setCapturing false)) w'.

(** [captureImage]. *)
Definition captureImage (env : Remote) (w : World Comp) : World Comp :=
  match videoRef (ui w), canvasRef (ui w) with
  | Some _, true =>
      if canvas_context env
      then stopCamera
             (set_ui (set_state (setCapturedImage (Some (canvas_toDataURL env)))) w)
      else w
  | _, _ => w
  end.

(** [`${user.id}/${Date.now()}.jpg`]. *)
Definition fileName (env : Remote) (u : User) : string :=
  id u +:+ "/" +:+ string_of_N (Date_now env) +:+ ".jpg".

(** [await fetch(capturedImage)] and [await response.blob()]. *)
Definition fetch_image (env : Remote) (url : string) : Eff Comp Blob :=
  fun w => (fetch_blob env url, emit (EvFetch url) w).

(** The [try] block of [analyzeImage]. *)
Definition analyzeImage_try (env : Remote) (image : string) (u : User)
    : Eff Comp unit :=
  let! blob := fetch_image env image in
  let path := fileName env u in
  let! uploadError := upload env path blob in
  do! throw_if uploadError in
  let! publicUrl := getPublicUrl env path in
  let! response := invoke env publicUrl in
  do! throw_if (inv_error response) in
  let! row := scan_row u publicUrl (inv_data response) in
  let! dbError := insert_scan env row in
  do! throw_if dbError in
  do! exec (set_ui (set_state (setResult (inv_data response)))) in
  exec (emit (EvToastSuccess "Analysis complete!")).

(** The [catch] block of [analyzeImage]. *)
Definition analyzeImage_catch (e : Error) (w : World Comp) : World Comp :=
  emit (EvToastError (message_or e "Failed to analyze image"))
    (emit (EvConsoleError "Analysis error:" e) w).

(** [analyzeImage]. *)
Definition analyzeImage (env : Remote) (w : World Comp) : World Comp :=
  match capturedImage (state (ui w)), user (state (ui w)) with
  | Some image, Some u =>
      if truthy_string (Some image)
      then try_catch_finally (analyzeImage_try env image u) analyzeImage_catch
             (set_ui (set_state (setAnalyzing false)))
             (set_ui (set_state (setAnalyzing true)) w)
      else w
  | _, _ => w
  end.

(** The [onClick] of the Retake button. *)
Definition retake (w : World Comp) : World Comp :=
  set_ui (set_state (setResult None))
    (set_ui (set_state (setCapturedImage None)) w).

(** The [onClick] of the Scan Another Plant button. *)
Definition scanAnother (env : Remote) (w : World Comp) : World Comp :=
  startCamera env (retake w).

(** The cleanup returned by the stream effect, for the stream [o] of the
    render that created it. *)
Definition stream_cleanup (o : option nat) (w : World Comp) : World Comp :=
  match o with
  | Some sid => stop_stream sid w
  | None => w
  end.

(** The render that follows a handler: the [<video>] element is mounted
    exactly while [capturing]; when [stream] differs from the one the last
    stream effect saw, that effect's cleanup runs and the effect runs
    again. *)
Definition render (w : World Comp) : World Comp :=
  let c := ui w in
  let video :=
    if capturing (state c)
    then Some (match videoRef c with Some v => v | None => None end)
    else None in
  if decide (stream (state c) = effect_stream c)
  then set_ui (fun _ => mkComp (state c) video true (effect_stream c)) w
  else set_ui (fun _ => mkComp (state c) video true (stream (state c)))
         (stream_cleanup (effect_stream c) w).

(** Unmounting the component runs the cleanup of the last stream effect. *)
Definition unmount (w : World Comp) : World Comp :=
  set_ui (fun c => mkComp (state c) None false None)
    (stream_cleanup (effect_stream (ui w)) w).

(** The confidence block of the result card. *)
Definition render_result_confidence (s : State) : Rendered :=
  match result s with
  | Some r => render_confidence (confidence r)
  | None => RenderNothing
  end.

(** The controls of the page, and the successor of a world when one of
    them is used and the page has rendered again. Handlers run one at a
    time, each to completion. *)
Inductive Action :=
| StartCamera | CapturePhoto | Cancel | AnalyzePlant | Retake | ScanAnotherPlant.

Definition handler (env : Remote) (a : Action) : World Comp -> World Comp :=
  match a with
  | StartCamera => startCamera env
  | CapturePhoto => captureImage env
  | Cancel => stopCamera
  | AnalyzePlant => analyzeImage env
  | Retake => retake
  | ScanAnotherPlant => scanAnother env
  end.

Definition step (env : Remote) (a : Action) (w : World Comp) : World Comp :=
  render (handler env a w).

(** A run: the answers of the collaborators may differ at every step. *)
Fixpoint run (trace : list (Remote * Action)) (w : World Comp) : World Comp :=
  match trace with
  | [] => w
  | (env, a) :: rest => run rest (step env a w)
  end.

(** The component as first mounted, on a device that has handed out no
    stream. *)
Definition initial (u : option User) : World Comp :=
  mkWorld (mkComp (mkState u None false false None None) None true None)
    ∅ [] [] [].

(** The four blocks of the card, each behind its own condition in the JSX:
    [!capturing && !capturedImage], [capturing], [capturedImage && !result]
    and [result]. *)
Inductive Panel := StartPanel | VideoPanel | PreviewPanel | ResultPanel.

(** The blocks a state shows, in the order of the JSX. *)
Definition panels (s : State) : list Panel :=
  (if negb (capturing s) && negb (truthy_string (capturedImage s))
   then [StartPanel] else []) ++
  (if capturing s then [VideoPanel] else []) ++
  (if truthy_string (capturedImage s) && negb (truthy_object (result s))
   then [PreviewPanel] else []) ++
  (if truthy_object (result s) then [ResultPanel] else []).

(** Whether the button of an action is on the page and enabled: each
    button sits in one block, and Analyze Plant is [disabled={analyzing}]. *)
Definition offered (a : Action) (s : State) : bool :=
  match a with
  | StartCamera => negb (capturing s) && negb (truthy_string (capturedImage s))
  | CapturePhoto | Cancel => capturing s
  | AnalyzePlant =>
      truthy_string (capturedImage s) && negb (truthy_object (result s))
      && negb (analyzing s)
  | Retake => truthy_string (capturedImage s) && negb (truthy_object (result s))
  | ScanAnotherPlant => truthy_object (result s)
  end.

(** Whether a run only uses buttons that are offered when it uses them. *)
Fixpoint offered_run (trace : list (Remote * Action)) (w : World Comp) : bool :=
  match trace with
  | [] => true
  | (env, a) :: rest => offered a (state (ui w)) && offered_run rest (step env a w)
  end.

(** [startCamera] with its [await]. *)
Definition startCamera_async (env : Remote) : Async Comp unit :=
  atry_catch_finally
    (let!! mediaStream := await (acquire env) in
     do!! now (exec (set_ui (set_state (setStream (Some mediaStream))))) in
     do!! now (exec (set_ui (set_srcObject mediaStream))) in
     now (exec (set_ui (set_state (setCapturing true)))))
    (fun _ => emit (EvToastError "Failed to access camera")) (fun w => w).

(** The [try] block of [analyzeImage] with its [await]s. *)
Definition analyzeImage_try_async (env : Remote) (image : string) (u : User)
    : Async Comp unit :=
  let!! blob := await (fetch_image env image) in
  let path := fileName env u in
  let!! uploadError := await (upload env path blob) in
  do!! now (throw_if uploadError) in
  let!! publicUrl := now (getPublicUrl env path) in
  let!! response := await (invoke env publicUrl) in
  do!! now (throw_if (inv_error response)) in
  let!! row := now (scan_row u publicUrl (inv_data response)) in
  let!! dbError := await (insert_scan env row) in
  do!! now (throw_if dbError) in
  do!! now (exec (set_ui (set_state (setResult (inv_data response))))) in
  now (exec (emit (EvToastSuccess "Analysis complete!"))).

(** [analyzeImage] as the handler of a render that showed the state [s]:
    [capturedImage] and [user] are those of that render. *)
Definition analyzeImage_async (env : Remote) (s : State) : Async Comp unit :=
  match capturedImage s, user s with
  | Some image, Some u =>
      if truthy_string (Some image)
      then do!! now (exec (set_ui (set_state (setAnalyzing true)))) in
           atry_catch_finally (analyzeImage_try_async env image u) analyzeImage_catch
             (set_ui (set_state (setAnalyzing false)))
      else Finished (inr tt)
  | _, _ => Finished (inr tt)
  end.

(** The handler of a button, as the render that showed [s] created it. *)
Definition call (env : Remote) (a : Action) (s : State) : Async Comp unit :=
  match a with
  | StartCamera => startCamera_async env
  | CapturePhoto => now (exec (captureImage env))
  | Cancel => now (exec stopCamera)
  | AnalyzePlant => analyzeImage_async env s
  | Retake => now (exec retake)
  | ScanAnotherPlant => do!! now (exec retake) in startCamera_async env
  end.

(** What the user and the collaborators do to the page: a button is used,
    or the promise a call waits for settles. The page renders after each,
    and what a call has left to run keeps the answers of [env]. *)
Inductive Move :=
| Press (env : Remote) (a : Action)
| Settle (k : nat).

Definition move (m : Move) (l : Live Comp) : Live Comp :=
  match m with
  | Press env a => press render (call env a (state (ui (page l)))) l
  | Settle k => settle render k l
  end.

Definition moves (ms : list Move) (l : Live Comp) : Live Comp :=
  foldl (fun l m => move m l) l ms.

(** Whether every button of a run of moves is offered when it is used,
    and every promise that settles is one a call waits for. *)
Fixpoint offered_moves (ms : list Move) (l : Live Comp) : bool :=
  match ms with
  | [] => true
  | m :: rest =>
      match m with
      | Press _ a => offered a (state (ui (page l)))
      | Settle k => from_option waiting false (calls l !! k)
      end && offered_moves rest (move m l)
  end.

End Scan.

(** * Properties *)

Open Scope list_scope.

(** ** The protocol shared by the two analysis handlers *)

(** The events a handler appended to the log. *)
Definition new_events {C} (w w' : World C) : list Event :=
  drop (length (log w)) (log w').

Section Protocol.
Context {C : Type}.
Variables (env : Remote) (u : User) (path : string) (body : Blob).

(** The address the handler resolves for [path] and what the edge
    function answers for it. *)
Definition resolved : string := storage_publicUrl env path.
Definition answer : InvokeResponse := functions_invoke env resolved.

(** The object literal the handler passes to [insert]. *)
Definition row_of (d : AnalysisData) : ScanInsert :=
  mkScanInsert (id u) resolved (disease d) (diagnosis d) (recommendations d)
    (confidence d).
(** The two lines of the [catch] block. *)
Definition catch_events (e : Error) : list Event :=
  [EvConsoleError "Analysis error:" e;
   EvToastError (message_or e "Failed to analyze image")].

(** What a call that reached the upload with [path] and [body] leaves
    behind: [w] is the world at the call, [w'] the world when it has
    settled, [before] the events that preceded the upload, [off] and
    [with_result] the page's [setAnalyzing(false)] and [setResult]. *)
Definition settles (before : list Event) (off : C -> C)
    (with_result : option AnalysisData -> C -> C) (w w' : World C) : Prop :=
  camera w' = camera w /\
  match storage_upload env path body with
  | Some e =>
      storage w' = storage w /\ plant_scans w' = plant_scans w /\
      ui w' = off (ui w) /\
      log w' = log w ++ before ++ EvUpload path body :: catch_events e
  | None =>
      storage w' = <[path := body]> (storage w) /\
      match inv_error answer, inv_data answer with
      | Some e, _ =>
          plant_scans w' = plant_scans w /\ ui w' = off (ui w) /\
          log w' = log w ++ before ++
            [EvUpload path body; EvGetPublicUrl path; EvInvoke resolved]
            ++ catch_events e
      | None, None =>
          plant_scans w' = plant_scans w /\ ui w' = off (ui w) /\
          log w' = log w ++ before ++
            [EvUpload path body; EvGetPublicUrl path; EvInvoke resolved]
            ++ catch_events (TypeError_null "disease")
      | None, Some d =>
          match db_insert env (row_of d) with
          | Some e =>
              plant_scans w' = plant_scans w /\ ui w' = off (ui w) /\
              log w' = log w ++ before ++
                [EvUpload path body; EvGetPublicUrl path; EvInvoke resolved;
                 EvInsert (row_of d)] ++ catch_events e
          | None =>
              plant_scans w' = plant_scans w ++
                [mkDbRow (db_row_id env) (db_created_at env) (row_of d)] /\
              ui w' = off (with_result (Some d) (ui w)) /\
              log w' = log w ++ before ++
                [EvUpload path body; EvGetPublicUrl path; EvInvoke resolved;
                 EvInsert (row_of d); EvToastSuccess "Analysis complete!"]
          end
      end
  end.
End Protocol.

(** ** The operation [analyze] of either page *)

(** The two pages that analyse an image. *)
Inductive Page := UploadPage | ScanPage.

Definition page_state (p : Page) : Type :=
  match p with UploadPage => Upload.State | ScanPage => Scan.Comp end.

(** The analysis handler of a page: [handleAnalyze] or [analyzeImage]. *)
Definition analyze (p : Page) : Remote -> World (page_state p) -> World (page_state p) :=
  match p with
  | UploadPage => Upload.handleAnalyze
  | ScanPage => Scan.analyzeImage
  end.

(** The cells [analyzing] and [result] of a page, and their setters. *)
Definition analyzing_of (p : Page) : page_state p -> bool :=
  match p with
  | UploadPage => Upload.analyzing
  | ScanPage => fun c => Scan.analyzing (Scan.state c)
  end.
Definition result_of (p : Page) : page_state p -> option AnalysisData :=
  match p with
  | UploadPage => Upload.result
  | ScanPage => fun c => Scan.result (Scan.state c)
  end.
Definition set_analyzing (p : Page) (b : bool) : page_state p -> page_state p :=
  match p with
  | UploadPage => Upload.setAnalyzing b
  | ScanPage => Scan.set_state (Scan.setAnalyzing b)
  end.
Definition set_result (p : Page) (r : option AnalysisData) : page_state p -> page_state p :=
  match p with
  | UploadPage => Upload.setResult r
  | ScanPage => Scan.set_state (Scan.setResult r)
  end.

(** The guard on the first line of the handler: an image and a user. *)
Definition accepted (p : Page) : World (page_state p) -> bool :=
  match p with
  | UploadPage => fun w =>
      truthy_object (Upload.selectedFile (ui w)) && truthy_object (Upload.user (ui w))
  | ScanPage => fun w =>
      truthy_string (Scan.capturedImage (Scan.state (ui w)))
      && truthy_object (Scan.user (Scan.state (ui w)))
  end.

(** The user, the path and the bytes with which a call reaches the upload,
    when it does: the guard passed and, on the camera page, the captured
    image could be fetched. *)
Definition entered (p : Page) : Remote -> World (page_state p) -> option (User * string * Blob) :=
  match p with
  | UploadPage => fun env w =>
      match Upload.selectedFile (ui w), Upload.user (ui w) with
      | Some f, Some u => Some (u, Upload.fileName env u f, bytes f)
      | _, _ => None
      end
  | ScanPage => fun env w =>
      match Scan.capturedImage (Scan.state (ui w)), Scan.user (Scan.state (ui w)) with
      | Some image, Some u =>
          if truthy_string (Some image)
          then match fetch_blob env image with
               | inr blob => Some (u, Scan.fileName env u, blob)
               | inl _ => None
               end
          else None
      | _, _ => None
      end
  end.

(** The three remote stages. *)
Inductive Stage := UploadStage | AnalysisStage | PersistStage.

(** The first stage whose collaborator answers with a failure, and the
    error it answers with; [None] when all three stages succeed. A body
    that is [null] counts as a failure of the analysis. *)
Definition failure (env : Remote) (u : User) (path : string) (body : Blob)
    : option (Stage * Error) :=
  match storage_upload env path body with
  | Some e => Some (UploadStage, e)
  | None =>
      match inv_error (answer env path), inv_data (answer env path) with
      | Some e, _ => Some (AnalysisStage, e)
      | None, None => Some (AnalysisStage, TypeError_null "disease")
      | None, Some d =>
          match db_insert env (row_of env u path d) with
          | Some e => Some (PersistStage, e)
          | None => None
          end
      end
  end.

(** A string without a dot: what follows the last dot of a file name. *)
Fixpoint dot_free (s : string) : bool :=
  match s with
  | EmptyString => true
  | String c s' => negb (Ascii.eqb c "."%char) && dot_free s'
  end.

(** The confidence block a page shows for its result. *)
Definition rendered_confidence (p : Page) : page_state p -> Rendered :=
  match p with
  | UploadPage => Upload.render_result_confidence
  | ScanPage => fun c => Scan.render_result_confidence (Scan.state c)
  end.

(** The object a row's image address points at, when the address has the
    form the history page expects. *)
Definition image_path (r : DbRow) : option string :=
  History.filePath (image_url (columns r)).

(** A row that is in the table although the object of its image is not in
    the bucket. *)
Definition outlives_image {C} (w : World C) (r : DbRow) : Prop :=
  r ∈ plant_scans w /\
  exists path, image_path r = Some path /\ storage w !! path = None.

(** ** Concrete worlds and answers *)

Module Examples.

Definition u1 : User := mkUser "u1".
Definition leaf_jpg : File := mkFile "leaf.jpg" [Byte.xff; Byte.xd8; Byte.xff].

(** The address the storage service gives an object of the bucket. *)
Definition public (path : string) : string :=
  "https://project.supabase.co/storage/v1/object/public/plant-images/" +:+ path.

Definition blight : AnalysisData :=
  mkAnalysisData (Some "blight") (Some "...") None (Some (87 # 100)).

(** An analysis whose confidence is 1.5. *)
Definition overconfident : AnalysisData :=
  mkAnalysisData (Some "blight") (Some "...") None (Some (3 # 2)).

Definition failed_to_fetch : Error := mkError (Some "Failed to fetch").

(** The collaborators at the instant 1700000000123, with the given answers
    of the bucket to an upload, of the edge function, of the table to an
    insert, and of the table to a deletion. *)
Definition answers (up : option Error) (inv : InvokeResponse)
    (ins del : option Error) : Remote :=
  mkRemote 1700000000123 (fun _ _ => up) public (fun _ => None) (fun _ => inv)
    (fun _ => ins) "scan-1" "2023-11-14T22:13:20Z" (fun _ => del)
    (fun _ => inr [Byte.xff; Byte.xd8; Byte.xff]) (inr 1%nat) true
    "data:image/jpeg;base64,/9j/".

Definition all_ok : Remote :=
  answers None (mkInvokeResponse (Some blight) None) None None.
Definition upload_fails : Remote :=
  answers (Some failed_to_fetch) (mkInvokeResponse (Some blight) None) None None.
Definition analysis_fails : Remote :=
  answers None (mkInvokeResponse None (Some failed_to_fetch)) None None.
Definition persist_fails : Remote :=
  answers None (mkInvokeResponse (Some blight) None) (Some failed_to_fetch) None.
Definition delete_fails : Remote :=
  answers None (mkInvokeResponse (Some blight) None) None (Some failed_to_fetch).
Definition answers_overconfident : Remote :=
  answers None (mkInvokeResponse (Some overconfident) None) None None.

(** The upload page with a signed-in user and [leaf.jpg] selected. *)
Definition upload_page : World Upload.State :=
  mkWorld (Upload.mkState (Some u1) false (Some leaf_jpg) (Some "blob:preview")
             false None) ∅ [] [] [].

(** The upload page with a signed-in user and no file selected. *)
Definition upload_page_no_file : World Upload.State :=
  mkWorld (Upload.mkState (Some u1) false None None false None) ∅ [] [] [].

(** The path and the row of the scan of [leaf.jpg]. *)
Definition leaf_path : string := "u1/1700000000123.jpg".
Definition leaf_row : DbRow :=
  mkDbRow "scan-1" "2023-11-14T22:13:20Z"
    (mkScanInsert "u1" (public leaf_path) (Some "blight") (Some "...") None
       (Some (87 # 100))).

(** The history page listing that scan, its image in the bucket. *)
Definition history_page : World History.State :=
  mkWorld (History.mkState (Some u1) [leaf_row] false)
    {[ leaf_path := bytes leaf_jpg ]} [leaf_row] [] [].

(** The camera page after Start Camera was used and granted. *)
Definition camera_page : World Scan.Comp :=
  Scan.step all_ok Scan.StartCamera (Scan.initial (Some u1)).

(** The collaborators one millisecond later, everything accepted. *)
Definition all_ok_later : Remote :=
  mkRemote 1700000000124 (fun _ _ => None) public (fun _ => None)
    (fun _ => mkInvokeResponse (Some blight) None)
    (fun _ => None) "scan-2" "2023-11-14T22:13:21Z" (fun _ => None)
    (fun _ => inr [Byte.xff; Byte.xd8; Byte.xff]) (inr 1%nat) true
    "data:image/jpeg;base64,/9j/".

(** The address of the storage service without the bucket and the path. *)
Definition public_base : string :=
  "https://project.supabase.co/storage/v1/object/public".

(** The collaborators when the device refuses the camera. *)
Definition camera_refused : Remote :=
  mkRemote 1700000000123 (fun _ _ => None) public (fun _ => None)
    (fun _ => mkInvokeResponse (Some blight) None)
    (fun _ => None) "scan-1" "2023-11-14T22:13:20Z" (fun _ => None)
    (fun _ => inr [Byte.xff; Byte.xd8; Byte.xff])
    (inl (mkError (Some "Permission denied"))) true
    "data:image/jpeg;base64,/9j/".

(** Start Camera, then Capture Photo, everything granted. *)
Definition photo_taken : list (Remote * Scan.Action) :=
  [(all_ok, Scan.StartCamera); (all_ok, Scan.CapturePhoto)].

(** The path and the row of a second scan, made one millisecond later,
    and the history page listing both scans. *)
Definition later_path : string := "u1/1700000000124.jpg".
Definition later_row : DbRow :=
  mkDbRow "scan-2" "2023-11-14T22:13:21Z"
    (mkScanInsert "u1" (public later_path) (Some "blight") (Some "...") None
       (Some (87 # 100))).
Definition history_page_two : World History.State :=
  mkWorld (History.mkState (Some u1) [later_row; leaf_row] false)
    {[ leaf_path := bytes leaf_jpg; later_path := bytes leaf_jpg ]}
    [leaf_row; later_row] [] [].

(** On the camera page after a photo was taken: Analyze Plant, and while
    the analysis is pending Retake and Start Camera; the camera settles,
    then the analysis, stage by stage. *)
Definition retake_while_analyzing : list Scan.Move :=
  [Scan.Press all_ok Scan.AnalyzePlant; Scan.Press all_ok Scan.Retake;
   Scan.Press all_ok Scan.StartCamera; Scan.Settle 2;
   Scan.Settle 0; Scan.Settle 0; Scan.Settle 0; Scan.Settle 0].

(** The number nearest 0.285, and the number 1.5. *)
Definition near_0_285 : SpecFloat.spec_float :=
  SpecFloat.S754_finite false 5134103575202365 (-54).
Definition one_and_a_half : SpecFloat.spec_float :=
  SpecFloat.S754_finite false 6755399441055744 (-52).

End Examples.

(** ** The camera page between two user actions *)

(** What holds of the camera page whenever it has rendered and waits for
    the next action: the stream effect has seen the current stream; a
    stream of the device that is active is the one the component holds; the
    held stream is one the device handed out; the page is capturing exactly
    when it holds a stream, and then the video element is mounted; no
    analysis is in flight. *)
Definition at_rest (w : World Scan.Comp) : Prop :=
  let c := ui w in
  Scan.effect_stream c = Scan.stream (Scan.state c) /\
  (forall i, is_active (camera w) i = true -> Scan.stream (Scan.state c) = Some i) /\
  (forall i, Scan.stream (Scan.state c) = Some i -> (i < length (camera w))%nat) /\
  Scan.capturing (Scan.state c) = truthy_object (Scan.stream (Scan.state c)) /\
  (Scan.capturing (Scan.state c) = true -> is_Some (Scan.videoRef c)) /\
  Scan.canvasRef c = true /\
  Scan.analyzing (Scan.state c) = false.

(** What a handler of the camera page may do to the stream the component
    holds and to the device, seen from the world [w] it started in: nothing;
    stop the held stream and let go of it; or acquire a new stream and hold
    that one. *)
Definition camera_change (w h : World Scan.Comp) : Prop :=
  Scan.effect_stream (ui h) = Scan.effect_stream (ui w) /\
  Scan.analyzing (Scan.state (ui h)) = false /\
  Scan.capturing (Scan.state (ui h)) = truthy_object (Scan.stream (Scan.state (ui h))) /\
  ((Scan.stream (Scan.state (ui h)) = Scan.stream (Scan.state (ui w)) /\
    camera h = camera w) \/
   (exists sid, Scan.stream (Scan.state (ui w)) = Some sid /\
                Scan.stream (Scan.state (ui h)) = None /\
                camera h = alter stop_tracks sid (camera w)) \/
   (exists s, Scan.stream (Scan.state (ui h)) = Some (length (camera w)) /\
              camera h = camera w ++ [s])).

(** ** Words for the further properties *)

Definition is_invoke (e : Event) : bool :=
  match e with EvInvoke _ => true | _ => false end.
Definition is_delete (e : Event) : bool :=
  match e with EvDelete _ => true | _ => false end.

(** The positions of a string at which an occurrence of [sep] starts. *)
Fixpoint occurrences (sep s : string) : list nat :=
  (if startsWith sep s then [0%nat] else []) ++
  match s with
  | EmptyString => []
  | String _ s' => map S (occurrences sep s')
  end.

(** The bucket, the table and the log of a world, seen from the history
    page in the state [s]. *)
Definition on_history_page {C} (s : History.State) (w : World C) : World History.State :=
  mkWorld s (storage w) (plant_scans w) (camera w) (log w).

(** Every scan the history page lists is a row of the table. *)
Definition listed_in_table (w : World History.State) : Prop :=
  forall r, r ∈ History.scans (ui w) -> r ∈ plant_scans w.

(** What the panels of the camera page rely on: while capturing there is
    no captured image, and a result is only there with a captured image. *)
Definition coherent (s : Scan.State) : Prop :=
  (Scan.capturing s = true -> truthy_string (Scan.capturedImage s) = false) /\
  (truthy_object (Scan.result s) = true -> truthy_string (Scan.capturedImage s) = true).

(** The video element is mounted exactly while capturing, and its
    [srcObject] is not set. *)
Definition video_unbound (c : Scan.Comp) : Prop :=
  Scan.videoRef c = if Scan.capturing (Scan.state c) then Some None else None.

(** The camera page as its buttons leave it. *)
Definition in_use (w : World Scan.Comp) : Prop :=
  at_rest w /\ coherent (Scan.state (ui w)) /\ video_unbound (ui w).

(** ** How a call of [analyze] ends *)

(** Closes the conjuncts of [settles] once the answers are known. *)
Ltac settle := repeat split; cbn; rewrite <- ?app_assoc; reflexivity.

(** [handleAnalyze] past its guard follows the protocol. *)
Lemma handleAnalyze_settles env w f u :
  Upload.selectedFile (ui w) = Some f -> Upload.user (ui w) = Some u ->
  settles env u (Upload.fileName env u f) (bytes f) []
    (Upload.setAnalyzing false) Upload.setResult w (Upload.handleAnalyze env w).
Proof.
  intros Hf Hu. unfold settles, Upload.handleAnalyze. rewrite Hf, Hu.
  unfold try_catch_finally, Upload.handleAnalyze_try, bind, upload, answer, resolved.
  cbn.
  destruct (storage_upload env _ _) as [e|]; cbn; [settle|].
  destruct (functions_invoke env _) as [[d|] [e|]]; cbn; try settle.
  unfold insert_scan; cbn.
  destruct (db_insert env _) as [e|]; cbn; settle.
Qed.

(** [analyzeImage] past its guard, once the captured image has been
    fetched, follows the protocol. *)
Lemma analyzeImage_settles env w image u blob :
  Scan.capturedImage (Scan.state (ui w)) = Some image ->
  truthy_string (Some image) = true ->
  Scan.user (Scan.state (ui w)) = Some u ->
  fetch_blob env image = inr blob ->
  settles env u (Scan.fileName env u) blob [EvFetch image]
    (Scan.set_state (Scan.setAnalyzing false))
    (fun r => Scan.set_state (Scan.setResult r)) w (Scan.analyzeImage env w).
Proof.
  intros Hi Ht Hu Hb. unfold settles, Scan.analyzeImage. rewrite Hi, Hu, Ht.
  unfold try_catch_finally, Scan.analyzeImage_try, bind, Scan.fetch_image,
    upload, answer, resolved.
  cbn. rewrite Hb; cbn.
  destruct (storage_upload env _ _) as [e|]; cbn; [settle|].
  destruct (functions_invoke env _) as [[d|] [e|]]; cbn; try settle.
  unfold insert_scan; cbn.
  destruct (db_insert env _) as [e|]; cbn; settle.
Qed.

(** [analyzeImage] when the captured image cannot be fetched: nothing is
    requested from the bucket, the edge function or the table. *)
Lemma analyzeImage_fetch_fails env w image u e :
  Scan.capturedImage (Scan.state (ui w)) = Some image ->
  truthy_string (Some image) = true ->
  Scan.user (Scan.state (ui w)) = Some u ->
  fetch_blob env image = inl e ->
  let w' := Scan.analyzeImage env w in
  camera w' = camera w /\ storage w' = storage w /\
  plant_scans w' = plant_scans w /\
  ui w' = Scan.set_state (Scan.setAnalyzing false) (ui w) /\
  log w' = log w ++ EvFetch image :: catch_events e.
Proof.
  intros Hi Ht Hu Hb. unfold Scan.analyzeImage. rewrite Hi, Hu, Ht.
  unfold try_catch_finally, Scan.analyzeImage_try, bind, Scan.fetch_image.
  cbn. rewrite Hb; cbn. settle.
Qed.

(** The ways a call of [analyze] ends. *)
Lemma analyze_cases p env (w : World (page_state p)) :
  (accepted p w = false /\ entered p env w = None /\ analyze p env w = w) \/
  (exists image e,
      accepted p w = true /\ entered p env w = None /\
      camera (analyze p env w) = camera w /\
      storage (analyze p env w) = storage w /\
      plant_scans (analyze p env w) = plant_scans w /\
      ui (analyze p env w) = set_analyzing p false (ui w) /\
      log (analyze p env w) = log w ++ EvFetch image :: catch_events e) \/
  (exists u path body before,
      accepted p w = true /\ entered p env w = Some (u, path, body) /\
      (before = [] \/ exists url, before = [EvFetch url]) /\
      settles env u path body before (set_analyzing p false) (set_result p)
        w (analyze p env w)).
Proof.
  destruct p; unfold accepted, entered, analyze, set_analyzing, set_result, page_state in *.
  - destruct (Upload.selectedFile (ui w)) as [f|] eqn:Hf;
      [destruct (Upload.user (ui w)) as [u|] eqn:Hu|];
      rewrite ?Hf, ?Hu; cbn.
    + right; right. exists u, (Upload.fileName env u f), (bytes f), [].
      split; [done|]. split; [done|]. split; [by left|].
      by apply handleAnalyze_settles.
    + left. unfold Upload.handleAnalyze. by rewrite Hf, Hu.
    + left. unfold Upload.handleAnalyze. by rewrite Hf.
  - destruct (Scan.capturedImage (Scan.state (ui w))) as [image|] eqn:Hi;
      [destruct (Scan.user (Scan.state (ui w))) as [u|] eqn:Hu|];
      rewrite ?Hi, ?Hu; cbn.
    + destruct (truthy_string (Some image)) eqn:Ht; cbn in Ht; rewrite ?Ht.
      * destruct (fetch_blob env image) as [e|blob] eqn:Hb.
        -- right; left. exists image, e.
           pose proof (analyzeImage_fetch_fails env w image u e Hi Ht Hu Hb) as H.
           cbn in H. destruct H as (? & ? & ? & ? & ?).
           split; [done|]. split; [done|]. auto.
        -- right; right. exists u, (Scan.fileName env u), blob, [EvFetch image].
           split; [done|]. split; [done|]. split; [right; eauto|].
           by apply analyzeImage_settles.
      * left. unfold Scan.analyzeImage. rewrite Hi, Hu. cbn. rewrite Ht. auto.
    + left. unfold Scan.analyzeImage. rewrite Hi, Hu.
      rewrite andb_false_r. auto.
    + left. unfold Scan.analyzeImage. rewrite Hi. auto.
Qed.

Lemma new_events_app {C} (w w' : World C) evs :
  log w' = log w ++ evs -> new_events w w' = evs.
Proof. intros H. unfold new_events. rewrite H. apply drop_app_length. Qed.

Lemma app_singleton_neq {A} (l : list A) (x : A) : l ++ [x] <> l.
Proof.
  intros H. apply (f_equal length) in H. rewrite length_app in H. cbn in H. lia.
Qed.

(** Splits a call of [analyze] into the ways it can end, with the
    collaborators' answers known in each. *)
Ltac analyze_split p env w :=
  let Hs := fresh "Hs" in
  destruct (analyze_cases p env w)
    as [(Hacc & Hent & Hw) |
        [(image & err & Hacc & Hent & Hcam & Hsto & Hrows & Hui & Hlog) |
         (u0 & path0 & body0 & before & Hacc & Hent & Hbefore & Hs)]];
  [ rewrite ?Hw
  | idtac
  | unfold settles, answer, resolved in Hs;
    destruct Hs as [Hcam Hs];
    destruct (storage_upload env path0 body0) as [e_up|] eqn:Hup;
    [ destruct Hs as (Hsto & Hrows & Hui & Hlog)
    | destruct Hs as [Hsto Hs];
      destruct (inv_error (functions_invoke env (storage_publicUrl env path0)))
        as [e_an|] eqn:Herr;
      [ destruct Hs as (Hrows & Hui & Hlog)
      | destruct (inv_data (functions_invoke env (storage_publicUrl env path0)))
          as [d0|] eqn:Hdata;
        [ destruct (db_insert env (row_of env u0 path0 d0)) as [e_db|] eqn:Hdb;
          destruct Hs as (Hrows & Hui & Hlog)
        | destruct Hs as (Hrows & Hui & Hlog) ] ] ] ].

(** Decides where an event sits in a log that is known up to the events
    before the upload. *)
Ltac locate_event pre :=
  repeat (destruct pre as [|? pre]; simplify_eq/=).


(** An insert is requested only after the edge function has answered. *)
Lemma insert_after_invoke (p : Page) env (w : World (page_state p)) pre row post :
  new_events w (analyze p env w) = pre ++ EvInsert row :: post ->
  EvInvoke (image_url row) ∈ pre /\
  inv_error (functions_invoke env (image_url row)) = None.
Proof.
  analyze_split p env w;
    try (apply new_events_app in Hlog; rewrite Hlog); unfold catch_events; intros Hpre.
  - unfold new_events in Hpre. rewrite drop_all in Hpre. by destruct pre.
  - locate_event pre.
  - destruct Hbefore as [->|[? ->]]; locate_event pre.
  - destruct Hbefore as [->|[? ->]]; locate_event pre.
  - destruct Hbefore as [->|[? ->]]; locate_event pre; (split; [set_solver|done]).
  - destruct Hbefore as [->|[? ->]]; locate_event pre; (split; [set_solver|done]).
  - destruct Hbefore as [->|[? ->]]; locate_event pre.
Qed.

(** The table after a call. *)
Lemma rows_after_analyze (p : Page) env (w : World (page_state p)) :
  plant_scans (analyze p env w) =
  match entered p env w with
  | Some (u, path, body) =>
      match failure env u path body, inv_data (answer env path) with
      | None, Some d =>
          plant_scans w ++ [mkDbRow (db_row_id env) (db_created_at env) (row_of env u path d)]
      | _, _ => plant_scans w
      end
  | None => plant_scans w
  end.
Proof.
  unfold failure, answer, resolved.
  analyze_split p env w; rewrite Hent, ?Hup, ?Herr, ?Hdata, ?Hdb; done.
Qed.

(** When the edge function fails, no insert is requested. *)
Lemma no_insert_when_analysis_fails (p : Page) env (w : World (page_state p))
    u path body e :
  entered p env w = Some (u, path, body) ->
  failure env u path body = Some (AnalysisStage, e) ->
  filter is_insert (new_events w (analyze p env w)) = [].
Proof.
  unfold failure, answer, resolved.
  analyze_split p env w; intros He Hf; simplify_eq;
    rewrite ?Hup, ?Herr, ?Hdata, ?Hdb in Hf; simplify_eq;
    apply new_events_app in Hlog; rewrite Hlog;
    destruct Hbefore as [->|[? ->]]; reflexivity.
Qed.

(** C1. A row is added to the table by a call of [analyze] exactly when the
    call reached the upload and the upload, the analysis and the insert all
    succeeded, and otherwise the table is left as it was; when the edge
    function fails no insert is requested at all; and an insert is only
    ever requested after the edge function has been invoked for the very
    address the row carries and has answered without error. *)
Theorem record_iff_all_stages_succeed (p : Page) env (w : World (page_state p)) :
  let w' := analyze p env w in
  ((exists r, plant_scans w' = plant_scans w ++ [r]) <->
   (exists u path body,
       entered p env w = Some (u, path, body) /\ failure env u path body = None)) /\
  (plant_scans w' = plant_scans w \/ exists r, plant_scans w' = plant_scans w ++ [r]) /\
  (forall u path body e,
      entered p env w = Some (u, path, body) ->
      failure env u path body = Some (AnalysisStage, e) ->
      filter is_insert (new_events w w') = [] /\ plant_scans w' = plant_scans w) /\
  (forall pre row post,
      new_events w w' = pre ++ EvInsert row :: post ->
      EvInvoke (image_url row) ∈ pre /\
      inv_error (functions_invoke env (image_url row)) = None).
Proof.
  cbn zeta. pose proof (rows_after_analyze p env w) as Hrows.
  split; [|split; [|split]].
  - split.
    + intros [r Hr]. rewrite Hr in Hrows.
      destruct (entered p env w) as [[[u path] body]|];
        [|by apply app_singleton_neq in Hrows].
      exists u, path, body. split; [done|].
      destruct (failure env u path body); [|done].
      by apply app_singleton_neq in Hrows.
    + intros (u & path & body & He & Hf). rewrite He, Hf in Hrows.
      unfold failure in Hf.
      destruct (storage_upload env path body); [done|].
      destruct (inv_error (answer env path)); [done|].
      destruct (inv_data (answer env path)); [eauto|done].
  - destruct (entered p env w) as [[[u path] body]|]; [|by left].
    destruct (failure env u path body); [by left|].
    destruct (inv_data (answer env path)); [right; eauto|by left].
  - intros u path body e He Hf. split.
    + by eapply no_insert_when_analysis_fails.
    + by rewrite Hrows, He, Hf.
  - apply insert_after_invoke.
Qed.

Lemma append_nil_r (s : string) : s +:+ "" = s.
Proof. induction s as [|c s IH]; [done|]. change (String c (s +:+ "") = String c s). by rewrite IH. Qed.

Lemma append_assoc (a b c : string) : (a +:+ b) +:+ c = a +:+ (b +:+ c).
Proof.
  induction a as [|x a IH]; [done|].
  change (String x ((a +:+ b) +:+ c) = String x (a +:+ (b +:+ c))). by rewrite IH.
Qed.

Lemma split_go_dot_free e cur :
  dot_free e = true -> split_go "." e 0 cur = [cur +:+ e].
Proof.
  revert cur. induction e as [|c e IH]; intros cur Hd.
  - cbn [split_go]. by rewrite append_nil_r.
  - cbn [dot_free] in Hd. apply andb_true_iff in Hd as [Hc He].
    rewrite Ascii.eqb_sym in Hc. apply negb_true_iff in Hc.
    cbn [split_go startsWith]. rewrite Hc.
    rewrite IH by done. by rewrite append_assoc.
Qed.

Lemma last_split_go_ext base e cur :
  dot_free e = true -> last (split_go "." (base +:+ "." +:+ e) 0 cur) = Some e.
Proof.
  intros Hd. revert cur. induction base as [|c base IH]; intros cur.
  - change ("" +:+ "." +:+ e) with (String "." e).
    cbn [split_go startsWith]. rewrite Ascii.eqb_refl.
    cbn [String.length Nat.sub]. rewrite split_go_dot_free by done. done.
  - change (String c base +:+ "." +:+ e) with (String c (base +:+ "." +:+ e)).
    cbn [split_go]. destruct (startsWith "." _).
    + cbn [String.length Nat.sub]. rewrite last_cons. by rewrite IH.
    + apply IH.
Qed.

(** The piece after the last dot of [base.e] is [e]. *)
Lemma fileExt_of_name f base e :
  name f = base +:+ "." +:+ e -> dot_free e = true -> Upload.fileExt f = Some e.
Proof.
  intros Hn Hd. unfold Upload.fileExt, split. rewrite Hn.
  by apply last_split_go_ext.
Qed.

(** C2. A call of [analyze] whose three stages succeed, made for the user
    [u] with an image of extension [e] (a selected file named [base.e] on
    the upload page, a captured photo, always [jpg], on the camera page),
    uploads exactly one object, at the path [u/<Date.now()>.e], and inserts
    exactly one row, which carries the user's id, the public address
    resolved for that path, and the four fields of the analysis. *)
Theorem successful_call_creates_one_image_and_one_record :
  (forall env (w : World Upload.State) f u base e d,
      Upload.selectedFile (ui w) = Some f -> Upload.user (ui w) = Some u ->
      name f = base +:+ "." +:+ e -> dot_free e = true ->
      let path := id u +:+ "/" +:+ string_of_N (Date_now env) +:+ "." +:+ e in
      let url := storage_publicUrl env path in
      let row := mkScanInsert (id u) url (disease d) (diagnosis d)
                   (recommendations d) (confidence d) in
      storage_upload env path (bytes f) = None ->
      functions_invoke env url = mkInvokeResponse (Some d) None ->
      db_insert env row = None ->
      let w' := Upload.handleAnalyze env w in
      filter is_upload (new_events w w') = [EvUpload path (bytes f)] /\
      storage w' = <[path := bytes f]> (storage w) /\
      filter is_insert (new_events w w') = [EvInsert row] /\
      plant_scans w' =
        plant_scans w ++ [mkDbRow (db_row_id env) (db_created_at env) row]) /\
  (forall env (w : World Scan.Comp) image u blob d,
      Scan.capturedImage (Scan.state (ui w)) = Some image ->
      truthy_string (Some image) = true ->
      Scan.user (Scan.state (ui w)) = Some u ->
      fetch_blob env image = inr blob ->
      let path := id u +:+ "/" +:+ string_of_N (Date_now env) +:+ ".jpg" in
      let url := storage_publicUrl env path in
      let row := mkScanInsert (id u) url (disease d) (diagnosis d)
                   (recommendations d) (confidence d) in
      storage_upload env path blob = None ->
      functions_invoke env url = mkInvokeResponse (Some d) None ->
      db_insert env row = None ->
      let w' := Scan.analyzeImage env w in
      filter is_upload (new_events w w') = [EvUpload path blob] /\
      storage w' = <[path := blob]> (storage w) /\
      filter is_insert (new_events w w') = [EvInsert row] /\
      plant_scans w' =
        plant_scans w ++ [mkDbRow (db_row_id env) (db_created_at env) row]).
Proof.
  split.
  - intros env w f u base e d Hf Hu Hn He path url row Hup Hinv Hdb w'.
    pose proof (handleAnalyze_settles env w f u Hf Hu) as Hs.
    assert (Upload.fileName env u f = path) as Hp.
    { unfold Upload.fileName. by rewrite (fileExt_of_name f base e Hn He). }
    rewrite Hp in Hs. subst w' row url.
    unfold settles, answer, row_of, resolved in Hs.
    rewrite Hup, Hinv in Hs. cbn [inv_error inv_data] in Hs. rewrite Hdb in Hs.
    destruct Hs as (_ & Hsto & Hrows & _ & Hlog).
    apply new_events_app in Hlog. by rewrite Hlog.
  - intros env w image u blob d Hi Ht Hu Hb path url row Hup Hinv Hdb w'.
    pose proof (analyzeImage_settles env w image u blob Hi Ht Hu Hb) as Hs.
    change (Scan.fileName env u) with path in Hs. subst w' row url.
    unfold settles, answer, row_of, resolved in Hs.
    rewrite Hup, Hinv in Hs. cbn [inv_error inv_data] in Hs. rewrite Hdb in Hs.
    destruct Hs as (_ & Hsto & Hrows & _ & Hlog).
    apply new_events_app in Hlog. by rewrite Hlog.
Qed.

(** C3 (amended). Whichever stage of a call fails, and with whatever error
    [e], the call ends the same way: [e] is written to the console and its
    message (or "Failed to analyze image" when it has none) is shown in an
    error toast, nothing else is shown, the result is left as it was and
    the flag is cleared. A failure is therefore never presented as a
    success, and the stage that failed is not part of what is reported. *)
Theorem failure_reported_without_its_stage (p : Page) env (w : World (page_state p))
    u path body stage e :
  entered p env w = Some (u, path, body) ->
  failure env u path body = Some (stage, e) ->
  let w' := analyze p env w in
  filter is_feedback (new_events w w') = catch_events e /\
  filter is_toast_success (new_events w w') = [] /\
  result_of p (ui w') = result_of p (ui w) /\
  analyzing_of p (ui w') = false.
Proof.
  cbn zeta. unfold failure, answer, resolved.
  analyze_split p env w; intros He Hf; simplify_eq;
    rewrite ?Hup, ?Herr, ?Hdata, ?Hdb in Hf; simplify_eq;
    apply new_events_app in Hlog; rewrite Hlog, Hui;
    (split; [|split; [|split]]);
    try (destruct Hbefore as [->|[? ->]]; reflexivity);
    destruct p; reflexivity.
Qed.

(** C4. When the upload of a call succeeded and the edge function then
    fails, the bucket is the one the upload left: the object is at its
    path, with the bytes uploaded, and no removal is requested. *)
Theorem upload_kept_when_analysis_fails (p : Page) env (w : World (page_state p))
    u path body e :
  entered p env w = Some (u, path, body) ->
  failure env u path body = Some (AnalysisStage, e) ->
  let w' := analyze p env w in
  storage w' = <[path := body]> (storage w) /\
  storage w' !! path = Some body /\
  filter is_remove (new_events w w') = [].
Proof.
  cbn zeta. unfold failure, answer, resolved.
  analyze_split p env w; intros He Hf; simplify_eq;
    rewrite ?Hup, ?Herr, ?Hdata, ?Hdb in Hf; simplify_eq;
    apply new_events_app in Hlog; rewrite Hlog, Hsto;
    (split; [done|split; [apply lookup_insert_eq|]]);
    destruct Hbefore as [->|[? ->]]; reflexivity.
Qed.

(** C7 (amended). A call of [analyze] without an image or without a user
    returns at once: no stage runs, nothing is reported, and the world is
    exactly the one before the call. *)
Theorem guard_returns_silently (p : Page) env (w : World (page_state p)) :
  accepted p w = false -> analyze p env w = w.
Proof.
  intros Ha. analyze_split p env w; congruence.
Qed.

(** C8 (amended). The confidence a successful call stores in the row and
    keeps in the result is the one the edge function answered, as it is:
    nothing is checked or clamped. The result card and the history card
    both show [Math.round(confidence * 100)] percent of it. *)
Theorem confidence_stored_as_received (p : Page) env (w : World (page_state p))
    u path body d :
  entered p env w = Some (u, path, body) ->
  failure env u path body = None ->
  inv_data (answer env path) = Some d ->
  let w' := analyze p env w in
  (exists r, plant_scans w' = plant_scans w ++ [r] /\
             confidence_score (columns r) = confidence d /\
             History.render_scan_confidence r = render_confidence (confidence d)) /\
  result_of p (ui w') = Some d /\
  rendered_confidence p (ui w') = render_confidence (confidence d).
Proof.
  cbn zeta. unfold failure, answer, resolved.
  analyze_split p env w; intros He Hf Hd; simplify_eq;
    rewrite ?Hup, ?Herr, ?Hdata, ?Hdb in Hf; simplify_eq.
  rewrite Hrows, Hui. split; [eexists; split; [done|]; done|].
  destruct p; done.
Qed.

(** The events [deleteScan] appends and what it leaves of the bucket and
    the table. *)
Lemma deleteScan_settles env scanId imageUrl (w : World History.State) :
  let w' := History.deleteScan env scanId imageUrl w in
  storage w' =
    match History.removed_path imageUrl with
    | Some path =>
        match storage_remove env [path] with
        | None => delete path (storage w)
        | Some _ => storage w
        end
    | None => storage w
    end /\
  plant_scans w' =
    match db_delete env scanId with
    | None => filter (fun r => row_id r <> scanId) (plant_scans w)
    | Some _ => plant_scans w
    end /\
  log w' =
    log w ++
    match History.removed_path imageUrl with
    | Some path => [EvRemove [path]]
    | None => []
    end ++
    EvDelete scanId ::
      match db_delete env scanId with
      | None => [EvToastSuccess "Scan deleted"]
      | Some _ => [EvToastError "Failed to delete scan"]
      end.
Proof.
  unfold History.deleteScan, try_catch, try_catch_finally, History.deleteScan_try,
    bind, remove, delete_scan.
  destruct (History.removed_path imageUrl) as [path|]; cbn;
    [destruct (storage_remove env [path]); cbn|];
    destruct (db_delete env scanId); cbn; settle.
Qed.

(** C9 (amended). [deleteScan] first asks the bucket to remove the object
    of the image, when a non-empty path follows ['/plant-images/'] in the
    address, and does not look at the answer; it then asks the table to
    delete the row. The bucket loses the object exactly when the removal was
    requested and accepted. The table loses the rows with the given id
    exactly when the deletion was accepted, and then no row with that id is
    left to outlive its image; when the deletion is refused the table is as
    before, whatever happened to the image. *)
Theorem deleteScan_effects env scanId imageUrl (w : World History.State) :
  let w' := History.deleteScan env scanId imageUrl w in
  new_events w w' =
    match History.removed_path imageUrl with
    | Some path => [EvRemove [path]]
    | None => []
    end ++
    EvDelete scanId ::
      match db_delete env scanId with
      | None => [EvToastSuccess "Scan deleted"]
      | Some _ => [EvToastError "Failed to delete scan"]
      end /\
  storage w' =
    match History.removed_path imageUrl with
    | Some path =>
        match storage_remove env [path] with
        | None => delete path (storage w)
        | Some _ => storage w
        end
    | None => storage w
    end /\
  plant_scans w' =
    match db_delete env scanId with
    | None => filter (fun r => row_id r <> scanId) (plant_scans w)
    | Some _ => plant_scans w
    end /\
  (db_delete env scanId = None ->
   forall r, row_id r = scanId -> ~ outlives_image w' r).
Proof.
  cbn zeta.
  destruct (deleteScan_settles env scanId imageUrl w) as (Hsto & Hrows & Hlog).
  split; [by apply new_events_app|]. split; [done|]. split; [done|].
  intros Hdel r Hid [Hin _]. rewrite Hrows, Hdel in Hin.
  apply list_elem_of_filter in Hin as [Hne _]. done.
Qed.

(** ** The camera *)

Lemma stream_active_stop_tracks s : stream_active (stop_tracks s) = false.
Proof. induction s as [|t s IH]; [done|]. exact IH. Qed.

Lemma is_active_alter_stop cam j i :
  is_active (alter stop_tracks j cam) i =
  if decide (i = j) then false else is_active cam i.
Proof.
  unfold is_active. case_decide as Hij.
  - subst. rewrite list_lookup_alter_eq. destruct (cam !! j); [|done].
    apply stream_active_stop_tracks.
  - by rewrite list_lookup_alter_ne.
Qed.

Lemma is_active_app cam s i :
  is_active (cam ++ [s]) i =
  if decide (i < length cam)%nat then is_active cam i
  else if decide (i = length cam) then stream_active s else false.
Proof.
  unfold is_active. repeat case_decide.
  - by rewrite lookup_app_l.
  - subst. by rewrite list_lookup_middle.
  - rewrite lookup_ge_None_2; [done|]. rewrite length_app. cbn. lia.
Qed.

Lemma is_active_lt cam i : is_active cam i = true -> (i < length cam)%nat.
Proof.
  unfold is_active. destruct (cam !! i) eqn:H; [|done].
  intros _. by eapply lookup_lt_Some.
Qed.

Lemma elem_of_active_streams cam i :
  i ∈ active_streams cam <-> is_active cam i = true.
Proof.
  unfold active_streams. rewrite list_elem_of_filter, elem_of_seq. split.
  - by intros [? _].
  - intros H. split; [done|]. apply is_active_lt in H. lia.
Qed.

Lemma active_streams_nil cam :
  (forall i, is_active cam i = false) -> active_streams cam = [].
Proof.
  intros H. apply elem_of_nil_inv. intros i Hi.
  apply elem_of_active_streams in Hi. rewrite H in Hi. done.
Qed.

Lemma active_streams_NoDup cam : NoDup (active_streams cam).
Proof. apply NoDup_filter, NoDup_seq. Qed.

(** The page as first mounted is at rest. *)
Lemma initial_at_rest u : at_rest (Scan.initial u).
Proof.
  unfold at_rest; cbn. repeat split; done.
Qed.

(** The render after a handler brings the page to rest. *)
Lemma render_at_rest w h : at_rest w -> camera_change w h -> at_rest (Scan.render h).
Proof.
  intros (He & Hact & Hlt & _ & _ & _ & _) (Hh & Han & Hcap & Hcam).
  rewrite He in Hh. unfold at_rest, Scan.render.
  destruct Hcam as [[Hs Hc] | [(sid & Hw & Hs & Hc) | (s & Hs & Hc)]].
  - rewrite decide_True by congruence. cbn. rewrite Hc.
    repeat split; try done.
    + congruence.
    + intros i Hi. rewrite Hs. by apply Hact.
    + intros i Hi. apply Hlt. congruence.
    + intros Hcapt. rewrite Hcapt. by eexists.
  - rewrite decide_False by congruence. rewrite Hh, Hw. cbn. rewrite Hc, Hs.
    repeat split; try done.
    + intros i. rewrite !is_active_alter_stop. case_decide; [done|].
      intros Hi. apply Hact in Hi. congruence.
    + rewrite Hcap, Hs. done.
    + intros Hcapt. rewrite Hcapt. by eexists.
  - destruct (decide (Scan.stream (Scan.state (ui h)) = Scan.effect_stream (ui h)))
      as [Heq|Hne].
    { exfalso. rewrite Hs, Hh in Heq. symmetry in Heq. apply Hlt in Heq. lia. }
    rewrite Hh. cbn. rewrite Hs.
    assert (forall i, is_active (camera (Scan.stream_cleanup
              (Scan.stream (Scan.state (ui w))) h)) i = true ->
            i = length (camera w)) as Hone.
    { intros i. destruct (Scan.stream (Scan.state (ui w))) as [j|] eqn:Hj; cbn;
        rewrite Hc, ?is_active_alter_stop, is_active_app.
      - case_decide; [done|]. case_decide as Hi; [|by case_decide].
        intros Ha. apply Hact in Ha. congruence.
      - case_decide as Hi; [|by case_decide].
        intros Ha. apply Hact in Ha. congruence. }
    repeat split; try done.
    + intros i Hi. f_equal. symmetry. by apply Hone.
    + intros i [= <-].
      destruct (Scan.stream (Scan.state (ui w))); cbn;
        rewrite Hc, ?length_alter, length_app; cbn; lia.
    + rewrite Hcap, Hs. done.
    + intros Hcapt. rewrite Hcapt. by eexists.
Qed.

Lemma startCamera_change env w :
  Scan.analyzing (Scan.state (ui w)) = false ->
  Scan.capturing (Scan.state (ui w)) = truthy_object (Scan.stream (Scan.state (ui w))) ->
  camera_change w (Scan.startCamera env w).
Proof.
  intros Han Hcap.
  unfold camera_change, Scan.startCamera, try_catch, try_catch_finally,
    Scan.startCamera_try, bind, Scan.acquire.
  destruct (getUserMedia env) as [e|n]; cbn.
  - repeat split; try done. by left.
  - unfold Scan.set_srcObject; cbn.
    destruct (Scan.videoRef (ui w)); cbn; repeat split; try done;
      right; right; eexists; split; reflexivity.
Qed.

Lemma stopCamera_change w :
  Scan.analyzing (Scan.state (ui w)) = false -> camera_change w (Scan.stopCamera w).
Proof.
  intros Han. unfold camera_change, Scan.stopCamera.
  destruct (Scan.stream (Scan.state (ui w))) as [sid|] eqn:Hs; cbn; rewrite ?Hs;
    repeat split; try done.
  - right; left. by exists sid.
  - by left.
Qed.

Lemma handler_change env a w : at_rest w -> camera_change w (Scan.handler env a w).
Proof.
  intros (He & Hact & Hlt & Hcap & Hvid & Hcan & Han).
  destruct a; cbn [Scan.handler].
  - by apply startCamera_change.
  - unfold Scan.captureImage.
    destruct (Scan.videoRef (ui w)), (Scan.canvasRef (ui w)),
      (canvas_context env);
      try (repeat split; try done; by left).
    by apply (stopCamera_change
      (set_ui (Scan.set_state (Scan.setCapturedImage (Some (canvas_toDataURL env)))) w)).
  - by apply stopCamera_change.
  - unfold camera_change.
    change (Scan.analyzeImage env w) with (analyze ScanPage env w).
    analyze_split ScanPage env w;
      unfold analyze, set_analyzing, set_result, page_state in *;
      rewrite ?Hw, ?Hui, ?Hcam; cbn; repeat split; try done; by left.
  - repeat split; try done. by left.
  - unfold Scan.scanAnother. by apply (startCamera_change env (Scan.retake w)).
Qed.

(** Every action of the camera page takes a page at rest to a page at
    rest. *)
Lemma step_at_rest env a w : at_rest w -> at_rest (Scan.step env a w).
Proof.
  intros H. unfold Scan.step. apply (render_at_rest w); [done|].
  by apply handler_change.
Qed.

Lemma run_at_rest trace w : at_rest w -> at_rest (Scan.run trace w).
Proof.
  revert w. induction trace as [|[env a] trace IH]; intros w H; [done|].
  cbn. apply IH. by apply step_at_rest.
Qed.

(** C5 (amended). [startCamera] asks the device for a stream in whatever
    state it is called, and a granted stream is a new one; the page is
    protected only by what follows: after every render that follows an
    action (actions running one at a time), at most one stream of the
    device is active, and it is the stream the component holds. *)
Theorem at_most_one_active_stream_at_rest :
  (forall env (w : World Scan.Comp),
      filter is_getUserMedia (new_events w (Scan.startCamera env w)) = [EvGetUserMedia] /\
      forall n, getUserMedia env = inr n ->
                camera (Scan.startCamera env w) =
                camera w ++ [replicate n (mkTrack false 0)]) /\
  (forall trace u,
      let w := Scan.run trace (Scan.initial u) in
      (length (active_streams (camera w)) <= 1)%nat /\
      forall i, i ∈ active_streams (camera w) ->
                Scan.stream (Scan.state (ui w)) = Some i).
Proof.
  split.
  - intros env w.
    unfold Scan.startCamera, try_catch, try_catch_finally,
      Scan.startCamera_try, bind, Scan.acquire, new_events.
    destruct (getUserMedia env) as [e|n]; cbn.
    + split; [|done]. rewrite <- app_assoc, drop_app_length. done.
    + split; [|by intros ? [= <-]].
      unfold Scan.set_srcObject; cbn. destruct (Scan.videoRef (ui w)); cbn;
        by rewrite drop_app_length.
  - intros trace u w.
    pose proof (run_at_rest trace _ (initial_at_rest u)) as (_ & Hact & _).
    fold w in Hact.
    assert (forall i, i ∈ active_streams (camera w) ->
                      Scan.stream (Scan.state (ui w)) = Some i) as Hheld.
    { intros i Hi. by apply Hact, elem_of_active_streams. }
    split; [|done].
    pose proof (active_streams_NoDup (camera w)) as Hnd.
    destruct (active_streams (camera w)) as [|i [|j l]]; cbn; [lia|lia|].
    exfalso.
    pose proof (Hheld i ltac:(set_solver)) as Hi.
    pose proof (Hheld j ltac:(set_solver)) as Hj.
    rewrite Hi in Hj. injection Hj as <-.
    apply NoDup_cons in Hnd as [Hni _]. set_solver.
Qed.

Lemma alter_as_insert {A} (f : A -> A) (l : list A) i x :
  l !! i = Some x -> alter f i l = <[i := f x]> l.
Proof.
  intros H. rewrite list_insert_alter. apply list_alter_ext; [|done].
  intros y Hy. congruence.
Qed.

Lemma stop_tracks_twice tracks :
  stop_tracks (stop_tracks tracks) =
  map (fun t => mkTrack true (2 + stop_calls t)) tracks.
Proof. unfold stop_tracks. by rewrite map_map. Qed.

(** A page at rest that holds no stream has no active stream. *)
Lemma at_rest_no_stream w :
  at_rest w -> Scan.stream (Scan.state (ui w)) = None ->
  active_streams (camera w) = [].
Proof.
  intros (_ & Hact & _) Hs. apply active_streams_nil. intros i.
  destruct (is_active (camera w) i) eqn:Hi; [|done].
  apply Hact in Hi. congruence.
Qed.

(** [stopCamera] and the render after it, on a page that holds the stream
    the stream effect has seen. *)
Lemma stopCamera_render w sid tracks :
  Scan.stream (Scan.state (ui w)) = Some sid ->
  Scan.effect_stream (ui w) = Some sid ->
  camera w !! sid = Some tracks ->
  let w' := Scan.render (Scan.stopCamera w) in
  Scan.capturing (Scan.state (ui w')) = false /\
  Scan.stream (Scan.state (ui w')) = None /\
  Scan.capturedImage (Scan.state (ui w')) = Scan.capturedImage (Scan.state (ui w)) /\
  camera w' = <[sid := map (fun t => mkTrack true (2 + stop_calls t)) tracks]> (camera w).
Proof.
  intros Hs He Hl. unfold Scan.render, Scan.stopCamera. rewrite Hs. cbn.
  rewrite He. rewrite decide_False by done. cbn.
  repeat split. rewrite list_alter_alter_eq.
  rewrite (alter_as_insert _ _ _ _ Hl). cbn. by rewrite stop_tracks_twice.
Qed.

(** C6 (amended). With the actions of the page running one at a time, each
    to completion and followed by a render: whenever the page, after any
    sequence of actions, is capturing, it holds a stream of the device, and
    each way out of capturing leaves every track of that stream ended and
    no stream of the device active: Cancel and Capture Photo (when the
    canvas gives a context) let go of the stream and call [stop] on each of
    its tracks twice, once in [stopCamera] and once more in the cleanup of
    the stream effect at the render that follows; unmounting the page calls
    it once, in that cleanup. Calls that overlap are not covered. *)
Theorem leaving_capturing_stops_the_stream trace u :
  let w := Scan.run trace (Scan.initial u) in
  Scan.capturing (Scan.state (ui w)) = true ->
  exists sid tracks,
    Scan.stream (Scan.state (ui w)) = Some sid /\
    camera w !! sid = Some tracks /\
    (forall env,
        let w' := Scan.step env Scan.Cancel w in
        Scan.capturing (Scan.state (ui w')) = false /\
        Scan.stream (Scan.state (ui w')) = None /\
        camera w' =
          <[sid := map (fun t => mkTrack true (2 + stop_calls t)) tracks]> (camera w) /\
        active_streams (camera w') = []) /\
    (forall env,
        canvas_context env = true ->
        let w' := Scan.step env Scan.CapturePhoto w in
        Scan.capturing (Scan.state (ui w')) = false /\
        Scan.stream (Scan.state (ui w')) = None /\
        Scan.capturedImage (Scan.state (ui w')) = Some (canvas_toDataURL env) /\
        camera w' =
          <[sid := map (fun t => mkTrack true (2 + stop_calls t)) tracks]> (camera w) /\
        active_streams (camera w') = []) /\
    (let w' := Scan.unmount w in
     camera w' =
       <[sid := map (fun t => mkTrack true (1 + stop_calls t)) tracks]> (camera w) /\
     active_streams (camera w') = []).
Proof.
  intros w Hcapt.
  pose proof (run_at_rest trace _ (initial_at_rest u)) as Hrest. fold w in Hrest.
  pose proof Hrest as (He & Hact & Hlt & Hcap & Hvid & Hcan & Han).
  rewrite Hcapt in Hcap.
  destruct (Scan.stream (Scan.state (ui w))) as [sid|] eqn:Hs; [|done].
  destruct (lookup_lt_is_Some_2 (camera w) sid (Hlt sid eq_refl)) as [tracks Hl].
  exists sid, tracks. split; [done|]. split; [done|]. split; [|split].
  - intros env w'.
    destruct (stopCamera_render w sid tracks Hs He Hl) as (H1 & H2 & _ & H4).
    split; [done|]. split; [done|]. split; [done|].
    apply at_rest_no_stream; [|done]. by apply step_at_rest.
  - intros env Hctx w'.
    assert (w' = Scan.render (Scan.stopCamera
              (set_ui (Scan.set_state
                 (Scan.setCapturedImage (Some (canvas_toDataURL env)))) w))) as Hw'.
    { unfold w', Scan.step. cbn [Scan.handler]. unfold Scan.captureImage.
      destruct (Hvid Hcapt) as [v Hv]. by rewrite Hv, Hcan, Hctx. }
    destruct (stopCamera_render
                (set_ui (Scan.set_state
                   (Scan.setCapturedImage (Some (canvas_toDataURL env)))) w)
                sid tracks Hs He Hl) as (H1 & H2 & H3 & H4).
    rewrite <- Hw' in H1, H2, H3, H4.
    split; [done|]. split; [done|]. split; [done|]. split; [done|].
    apply at_rest_no_stream; [|done]. by apply step_at_rest.
  - cbn zeta. unfold Scan.unmount. rewrite He. cbn.
    rewrite (alter_as_insert _ _ _ _ Hl). split; [done|].
    apply active_streams_nil. intros i.
    rewrite <- (alter_as_insert stop_tracks _ _ _ Hl), is_active_alter_stop.
    case_decide as Hi; [done|].
    destruct (is_active (camera w) i) eqn:Ha; [|done].
    apply Hact in Ha. congruence.
Qed.


(** C10. A call of [analyze] that passes its guard ends with the flag
    [analyzing] cleared, whichever way it ends; a call stopped by the guard
    leaves the flag as it was. In both cases the image and the user the
    guard looks at are still there, so the handler can be called again.
    On the camera page the flag is cleared after every sequence of
    actions. *)
Theorem analyzing_reset :
  (forall (p : Page) env (w : World (page_state p)),
      let w' := analyze p env w in
      analyzing_of p (ui w') =
        (if accepted p w then false else analyzing_of p (ui w)) /\
      accepted p w' = accepted p w) /\
  (forall trace u,
      Scan.analyzing (Scan.state (ui (Scan.run trace (Scan.initial u)))) = false).
Proof.
  split.
  - intros p env w. cbn zeta.
    analyze_split p env w; rewrite ?Hacc; try done;
      destruct p; unfold accepted; rewrite Hui; done.
  - intros trace u.
    by pose proof (run_at_rest trace _ (initial_at_rest u)) as (_ & _ & _ & _ & _ & _ & H).
Qed.

(** ** File names, paths and addresses *)

Lemma startsWith_app sep rest : startsWith sep (sep +:+ rest) = true.
Proof.
  induction sep as [|c sep IH]; [by destruct rest|].
  change (String c sep +:+ rest) with (String c (sep +:+ rest)).
  cbn [startsWith]. by rewrite Ascii.eqb_refl.
Qed.

Lemma startsWith_inv sep s : startsWith sep s = true -> exists rest, s = sep +:+ rest.
Proof.
  revert s. induction sep as [|c sep IH]; intros s H; [by exists s|].
  destruct s as [|b s]; [done|]. cbn [startsWith] in H.
  destruct (Ascii.eqb c b) eqn:Hcb; [|done].
  apply Ascii.eqb_eq in Hcb as <-. destruct (IH s H) as [rest ->]. by exists rest.
Qed.

Lemma split_go_cons sep s skip cur :
  exists x l, split_go sep s skip cur = x :: l.
Proof.
  revert skip cur. induction s as [|c s IH]; intros skip cur; cbn [split_go]; [eauto|].
  destruct skip; [|apply IH]. destruct (startsWith sep (String c s)); [eauto|apply IH].
Qed.

(** The characters of an occurrence that are still to be dropped are
    dropped. *)
Lemma split_go_skip sep p s cur :
  split_go sep (p +:+ s) (String.length p) cur = split_go sep s 0 cur.
Proof.
  induction p as [|c p IH]; [done|].
  change (String c p +:+ s) with (String c (p +:+ s)). exact IH.
Qed.

(** At an occurrence of a non-empty separator the piece collected so far is
    closed. *)
Lemma split_go_match c sep rest cur :
  split_go (String c sep) (String c sep +:+ rest) 0 cur =
  cur :: split_go (String c sep) rest 0 "".
Proof.
  change (String c sep +:+ rest) with (String c (sep +:+ rest)) at 1.
  cbn [split_go].
  change (String c (sep +:+ rest)) with (String c sep +:+ rest).
  rewrite startsWith_app. cbn [String.length Nat.sub].
  rewrite Nat.sub_0_r. by rewrite split_go_skip.
Qed.

Lemma occurrences_nil_split sep s cur :
  occurrences sep s = [] -> split_go sep s 0 cur = [cur +:+ s].
Proof.
  revert cur. induction s as [|c s IH]; intros cur H.
  - cbn [split_go]. by rewrite append_nil_r.
  - cbn [occurrences] in H. apply app_eq_nil in H as [Hsw Hocc].
    destruct (startsWith sep (String c s)) eqn:Hs; [done|].
    apply fmap_nil_inv in Hocc.
    cbn [split_go]. rewrite Hs, IH by done. by rewrite append_assoc.
Qed.

Lemma occurrences_nil_suffix sep p s :
  occurrences sep (p +:+ s) = [] -> occurrences sep s = [].
Proof.
  induction p as [|c p IH]; [done|].
  change (String c p +:+ s) with (String c (p +:+ s)). cbn [occurrences].
  intros H. apply app_eq_nil in H as [_ H]. apply fmap_nil_inv in H. by apply IH.
Qed.

(** Up to the first occurrence nothing is split off. *)
Lemma occurrences_first_split sep a rest cur :
  occurrences sep (a +:+ rest) = [String.length a] ->
  split_go sep (a +:+ rest) 0 cur = split_go sep rest 0 (cur +:+ a) /\
  occurrences sep rest = [0%nat].
Proof.
  revert cur. induction a as [|c a IH]; intros cur H.
  - cbn in *. by rewrite append_nil_r.
  - change (String c a +:+ rest) with (String c (a +:+ rest)) in *.
    cbn [occurrences String.length] in H.
    destruct (startsWith sep (String c (a +:+ rest))) eqn:Hs; [done|].
    cbn [app] in H.
    assert (occurrences sep (a +:+ rest) = [String.length a]) as Ha.
    { destruct (occurrences sep (a +:+ rest)) as [|x [|y l]]; simplify_eq/=; done. }
    destruct (IH (cur +:+ String c "") Ha) as [Hsplit Hocc].
    cbn [split_go]. rewrite Hs, Hsplit. by rewrite append_assoc.
Qed.

(** An address in which the separator occurs once, after [base], splits
    into [base] and what follows the separator. *)
Lemma split_single_occurrence c sep base path :
  occurrences (String c sep) (base +:+ String c sep +:+ path) = [String.length base] ->
  split (String c sep) (base +:+ String c sep +:+ path) = [base; path].
Proof.
  intros H. unfold split.
  destruct (occurrences_first_split _ _ _ "" H) as [-> Hocc].
  cbn [String.append]. rewrite split_go_match.
  change (String c sep +:+ path) with (String c (sep +:+ path)) in Hocc.
  cbn [occurrences] in Hocc.
  destruct (startsWith (String c sep) (String c (sep +:+ path)));
    [|by destruct (occurrences (String c sep) (sep +:+ path))].
  injection Hocc as Hocc. apply fmap_nil_inv in Hocc.
  apply occurrences_nil_suffix in Hocc.
  by rewrite (occurrences_nil_split _ _ "" Hocc).
Qed.

Lemma includes_occurrences sep s : Js.includes sep s = false <-> occurrences sep s = [].
Proof.
  induction s as [|c s IH]; cbn [Js.includes occurrences].
  - rewrite orb_false_r, app_nil_r. by destruct (startsWith sep "").
  - rewrite orb_false_iff, IH. destruct (startsWith sep (String c s)); cbn.
    + split; [by intros [? _]|done].
    + split.
      * intros [_ ->]. done.
      * intros H. apply fmap_nil_inv in H. done.
Qed.

(** A string that includes the separator has a first occurrence. *)
Lemma includes_first sep s :
  Js.includes sep s = true ->
  exists a rest, s = a +:+ sep +:+ rest /\
    forall cur, split_go sep s 0 cur = split_go sep (sep +:+ rest) 0 (cur +:+ a).
Proof.
  induction s as [|c s IH]; cbn [Js.includes]; intros H.
  - rewrite orb_false_r in H. destruct (startsWith_inv _ _ H) as [rest Hr].
    exists "", rest. split; [done|]. intros cur. cbn. by rewrite append_nil_r, <- Hr.
  - destruct (startsWith sep (String c s)) eqn:Hs.
    + destruct (startsWith_inv _ _ Hs) as [rest Hr].
      exists "", rest. split; [done|]. intros cur. cbn. by rewrite append_nil_r, <- Hr.
    + cbn in H. destruct (IH H) as (a & rest & -> & Hsplit).
      exists (String c a), rest. split; [done|]. intros cur.
      change (String c a +:+ sep +:+ rest) with (String c (a +:+ sep +:+ rest)) in *.
      cbn [split_go]. rewrite Hs, Hsplit. by rewrite append_assoc.
Qed.

(** Every string is dot-free or has a last dot. *)
Lemma last_dot s :
  dot_free s = true \/ exists base e, s = base +:+ "." +:+ e /\ dot_free e = true.
Proof.
  induction s as [|c s IH]; [by left|].
  destruct IH as [Hs | (base & e & -> & He)].
  - cbn [dot_free]. destruct (Ascii.eqb c ".") eqn:Hc.
    + right. apply Ascii.eqb_eq in Hc as ->. by exists "", s.
    + left. by rewrite Hs.
  - right. by exists (String c base), e.
Qed.

Lemma fileExt_is_last_piece_aux (f : File) :
  exists e, Upload.fileExt f = Some e /\ dot_free e = true /\
    ((dot_free (name f) = true /\ e = name f) \/
     exists base, name f = base +:+ "." +:+ e).
Proof.
  destruct (last_dot (name f)) as [Hn | (base & e & Hn & He)].
  - exists (name f). split; [|split; [done|by left]].
    unfold Upload.fileExt, split. by rewrite split_go_dot_free.
  - exists e. split; [|split; [done|right; by exists base]].
    by apply (fileExt_of_name f base e).
Qed.

(** X1. The extension [handleAnalyze] takes from a file name is always
    there and has no dot in it: it is what follows the last dot of the name
    and, when the name has no dot, the whole name. *)
Theorem fileExt_is_last_piece (f : File) :
  exists e, Upload.fileExt f = Some e /\ dot_free e = true /\
    ((dot_free (name f) = true /\ e = name f) \/
     exists base, name f = base +:+ "." +:+ e).
Proof. apply fileExt_is_last_piece_aux. Qed.

Lemma append_inv_head (a x y : string) : a +:+ x = a +:+ y -> x = y.
Proof.
  induction a as [|c a IH]; [done|].
  change (String c (a +:+ x) = String c (a +:+ y) -> x = y). intros [= H]. auto.
Qed.

(** Two strings cut at their first dot agree piece by piece. *)
Lemma dot_split_unique (a b x y : string) :
  dot_free a = true -> dot_free b = true ->
  a +:+ "." +:+ x = b +:+ "." +:+ y -> a = b /\ x = y.
Proof.
  revert b. induction a as [|c a IH]; intros [|d b] Ha Hb H.
  - by injection H.
  - change (String "." x = String d (b +:+ "." +:+ y)) in H.
    injection H as <- _. by cbn in Hb.
  - change (String c (a +:+ "." +:+ x) = String "." y) in H.
    injection H as -> _. by cbn in Ha.
  - change (String c (a +:+ "." +:+ x) = String d (b +:+ "." +:+ y)) in H.
    injection H as -> H. cbn [dot_free] in Ha, Hb.
    apply andb_true_iff in Ha as [_ Ha]. apply andb_true_iff in Hb as [_ Hb].
    destruct (IH b Ha Hb H) as [-> ->]. done.
Qed.

Lemma dot_free_uint d : dot_free (NilEmpty.string_of_uint d) = true.
Proof. induction d; cbn; done. Qed.

Lemma dot_free_string_of_N n : dot_free (string_of_N n) = true.
Proof.
  unfold string_of_N, NilZero.string_of_uint.
  destruct (N.to_uint n); try done; apply (dot_free_uint (_ _)).
Qed.

Lemma string_of_N_inj a b : string_of_N a = string_of_N b -> a = b.
Proof.
  unfold string_of_N. intros H. apply DecimalN.Unsigned.to_uint_inj.
  assert (forall n, N.to_uint n <> Decimal.Nil) as Hnn.
  { intros [|p]; [done|]. apply DecimalPos.Unsigned.to_uint_nonnil. }
  pose proof (NilZero.usu _ (Hnn a)) as Ha.
  pose proof (NilZero.usu _ (Hnn b)) as Hb.
  rewrite H in Ha. congruence.
Qed.

(** X2. The path of an upload tells the instant of the upload: two calls
    by the same user at different values of [Date.now()] never use the same
    path, whatever the files; the file itself enters the path only through
    its extension. *)
Theorem fileName_tells_the_instant :
  (forall env1 env2 u f1 f2,
      Upload.fileName env1 u f1 = Upload.fileName env2 u f2 ->
      Date_now env1 = Date_now env2 /\ Upload.fileExt f1 = Upload.fileExt f2) /\
  (forall env u f1 f2,
      Upload.fileExt f1 = Upload.fileExt f2 ->
      Upload.fileName env u f1 = Upload.fileName env u f2) /\
  (forall env1 env2 u,
      Scan.fileName env1 u = Scan.fileName env2 u -> Date_now env1 = Date_now env2).
Proof.
  split; [|split].
  - intros env1 env2 u f1 f2 H. unfold Upload.fileName in H.
    do 2 apply append_inv_head in H.
    destruct (fileExt_is_last_piece_aux f1) as (e1 & He1 & _).
    destruct (fileExt_is_last_piece_aux f2) as (e2 & He2 & _).
    rewrite He1, He2 in H.
    change (interpolate (Some e1)) with e1 in H.
    change (interpolate (Some e2)) with e2 in H.
    apply dot_split_unique in H as [Hn ->]; try apply dot_free_string_of_N.
    split; [by apply string_of_N_inj|by rewrite He1, He2].
  - intros env u f1 f2 H. unfold Upload.fileName. by rewrite H.
  - intros env1 env2 u H. unfold Scan.fileName in H.
    do 2 apply append_inv_head in H.
    change (string_of_N (Date_now env1) +:+ "." +:+ "jpg" =
            string_of_N (Date_now env2) +:+ "." +:+ "jpg") in H.
    apply dot_split_unique in H as [Hn _]; try apply dot_free_string_of_N.
    by apply string_of_N_inj.
Qed.

(** X3. When ['/plant-images/'] occurs in an image address exactly once,
    what [deleteScan] takes for the path of the object is all that follows
    it, and that is the path it asks the bucket to remove unless it is
    empty. *)
Theorem filePath_inverts_address base path :
  occurrences "/plant-images/" (base +:+ "/plant-images/" +:+ path) =
    [String.length base] ->
  History.filePath (base +:+ "/plant-images/" +:+ path) = Some path /\
  History.removed_path (base +:+ "/plant-images/" +:+ path) =
    (if truthy_string (Some path) then Some path else None).
Proof.
  intros H. unfold History.removed_path, History.filePath.
  by rewrite (split_single_occurrence _ _ _ _ H).
Qed.

Lemma filePath_None_iff url :
  History.filePath url = None <-> Js.includes "/plant-images/" url = false.
Proof.
  split.
  - intros H. destruct (Js.includes "/plant-images/" url) eqn:Hi; [|done].
    destruct (includes_first _ _ Hi) as (a & rest & _ & Hsplit).
    unfold History.filePath, split in H. rewrite Hsplit, split_go_match in H.
    destruct (split_go_cons "/plant-images/" rest 0 "") as (x & l & Hx).
    by rewrite Hx in H.
  - intros H. apply includes_occurrences in H.
    unfold History.filePath, split. by rewrite (occurrences_nil_split _ _ "" H).
Qed.

(** ** More on the analysis and the deletion *)

(** X4. [deleteScan] takes no path from an address exactly when the address
    does not include ['/plant-images/']; for such an address it asks the
    bucket for nothing and leaves it as it is, and still asks the table to
    delete the row. *)
Theorem deleteScan_without_marker :
  (forall url,
      History.filePath url = None <-> Js.includes "/plant-images/" url = false) /\
  (forall env scanId url (w : World History.State),
      Js.includes "/plant-images/" url = false ->
      let w' := History.deleteScan env scanId url w in
      storage w' = storage w /\
      filter is_remove (new_events w w') = [] /\
      filter is_delete (new_events w w') = [EvDelete scanId]).
Proof.
  split; [apply filePath_None_iff|].
  intros env scanId url w Hi. cbn zeta.
  destruct (deleteScan_settles env scanId url w) as (Hsto & _ & Hlog).
  apply filePath_None_iff in Hi. unfold History.removed_path in *.
  rewrite Hi in *. apply new_events_app in Hlog. rewrite Hlog.
  split; [done|]. by destruct (db_delete env scanId).
Qed.

(** X5. A call of [analyze] that fails stops where it fails. After a
    refused upload nothing was asked of the edge function or the table and
    the bucket is as before; after a failed analysis the object is in the
    bucket and no insert was requested; after a refused insert the object is
    in the bucket, the edge function was invoked once and the insert was
    requested once. In all three cases there was one upload request and the
    table is as before. *)
Theorem failure_stops_the_protocol (p : Page) env (w : World (page_state p))
    u path body stage e :
  entered p env w = Some (u, path, body) ->
  failure env u path body = Some (stage, e) ->
  let w' := analyze p env w in
  let requests := new_events w w' in
  filter is_upload requests = [EvUpload path body] /\
  plant_scans w' = plant_scans w /\
  match stage with
  | UploadStage =>
      storage w' = storage w /\
      filter is_invoke requests = [] /\ filter is_insert requests = []
  | AnalysisStage =>
      storage w' = <[path := body]> (storage w) /\
      filter is_invoke requests = [EvInvoke (storage_publicUrl env path)] /\
      filter is_insert requests = []
  | PersistStage =>
      storage w' = <[path := body]> (storage w) /\
      filter is_invoke requests = [EvInvoke (storage_publicUrl env path)] /\
      exists d, inv_data (functions_invoke env (storage_publicUrl env path)) = Some d /\
                filter is_insert requests = [EvInsert (row_of env u path d)]
  end.
Proof.
  cbn zeta. unfold failure, answer, resolved.
  analyze_split p env w; intros He Hf; simplify_eq;
    rewrite ?Hup, ?Herr, ?Hdata, ?Hdb in Hf; simplify_eq;
    apply new_events_app in Hlog; rewrite Hlog, Hsto, Hrows;
    destruct Hbefore as [->|[? ->]];
    repeat split; try reflexivity; by eexists.
Qed.

(** X6. What a call of [analyze] leaves alone: the camera; every request
    other than its own (no removal from the bucket, no deletion from the
    table, no request to the device); the rows the table had, to which at
    most one is appended; the log, which only grows; and every object of
    the bucket except the one at the path of its own upload. *)
Theorem analyze_frame (p : Page) env (w : World (page_state p)) :
  let w' := analyze p env w in
  camera w' = camera w /\
  log w' = log w ++ new_events w w' /\
  filter is_remove (new_events w w') = [] /\
  filter is_delete (new_events w w') = [] /\
  filter is_getUserMedia (new_events w w') = [] /\
  (exists added, plant_scans w' = plant_scans w ++ added /\ (length added <= 1)%nat) /\
  (forall k, storage w' !! k <> storage w !! k ->
             exists u body, entered p env w = Some (u, k, body) /\
                            storage w' !! k = Some body).
Proof.
  cbn zeta.
  analyze_split p env w; rewrite ?Hcam, ?Hsto, ?Hrows;
    try (rewrite Hlog; apply new_events_app in Hlog; rewrite Hlog).
  1: { unfold new_events. rewrite drop_all, app_nil_r.
       do 5 (split; [done|]). split; [|done].
       exists []. rewrite app_nil_r. split; [done|cbn; lia]. }
  all: split; [done|]; split; [done|].
  all: split; [try (destruct Hbefore as [->|[? ->]]); reflexivity|].
  all: split; [try (destruct Hbefore as [->|[? ->]]); reflexivity|].
  all: split; [try (destruct Hbefore as [->|[? ->]]); reflexivity|].
  all: split;
    [ first [ exists []; rewrite app_nil_r; split; [done|cbn; lia]
            | eexists [_]; split; [done|cbn; lia] ] |].
  all: try done.
  all: intros k Hk; destruct (decide (k = path0)) as [->|Hne];
    [ exists u0, body0; split; [done|apply lookup_insert_eq]
    | by rewrite lookup_insert_ne in Hk ].
Qed.

Lemma truthy_append_slash a b : truthy_string (Some (a +:+ "/" +:+ b)) = true.
Proof. by destruct a. Qed.

Lemma entered_path_truthy (p : Page) env (w : World (page_state p)) u path body :
  entered p env w = Some (u, path, body) -> truthy_string (Some path) = true.
Proof.
  destruct p; unfold entered.
  - destruct (Upload.selectedFile (ui w)), (Upload.user (ui w)); try done.
    intros [= <- <- <-]. apply truthy_append_slash.
  - destruct (Scan.capturedImage (Scan.state (ui w))), (Scan.user (Scan.state (ui w)));
      try done.
    destruct (truthy_string (Some _)); [|done].
    destruct (fetch_blob env _); [done|].
    intros [= <- <- <-]. apply truthy_append_slash.
Qed.

Lemma filter_all {A} (P : A -> Prop) `{forall x, Decision (P x)} (l : list A) :
  Forall P l -> filter P l = l.
Proof.
  induction 1 as [|x l Hx _ IH]; [done|].
  rewrite filter_cons, decide_True by done. by rewrite IH.
Qed.

(** X7. A scan made by a successful call of [analyze] can be taken back:
    when the address of its image is [base/plant-images/path] with
    ['/plant-images/'] occurring only there, the path was free in the bucket
    and the key the table gave the row was new, then [deleteScan], called
    as the history page calls it (with the key and the address of the row)
    and accepted by the bucket and the table, leaves the bucket and the
    table exactly as they were before the analysis. *)
Theorem analyze_then_delete_restores (p : Page) env env' (w : World (page_state p))
    u path body d base hs :
  entered p env w = Some (u, path, body) ->
  failure env u path body = None ->
  inv_data (answer env path) = Some d ->
  storage_publicUrl env path = base +:+ "/plant-images/" +:+ path ->
  occurrences "/plant-images/" (base +:+ "/plant-images/" +:+ path) =
    [String.length base] ->
  storage w !! path = None ->
  Forall (fun r => row_id r <> db_row_id env) (plant_scans w) ->
  storage_remove env' [path] = None ->
  db_delete env' (db_row_id env) = None ->
  let w1 := analyze p env w in
  let scan := mkDbRow (db_row_id env) (db_created_at env) (row_of env u path d) in
  let w2 := History.deleteScan env' (row_id scan) (image_url (columns scan))
              (on_history_page hs w1) in
  plant_scans w1 = plant_scans w ++ [scan] /\
  storage w2 = storage w /\
  plant_scans w2 = plant_scans w.
Proof.
  intros Henter Hfail Hd Hurl Hocc Hfree Hnew Hrem Hdel. cbn zeta.
  pose proof (entered_path_truthy p env w u path body Henter) as Htruthy.
  destruct (deleteScan_settles env' (db_row_id env) (storage_publicUrl env path)
              (on_history_page hs (analyze p env w))) as (Hsto2 & Hrows2 & _).
  cbn [row_id columns image_url row_of resolved].
  unfold resolved. rewrite Hsto2, Hrows2, Hdel.
  unfold History.removed_path, History.filePath.
  rewrite Hurl, (split_single_occurrence _ _ _ _ Hocc). cbn [lookup list_lookup].
  rewrite Htruthy, Hrem. unfold on_history_page; cbn [storage plant_scans].
  revert Henter Hfail Hd. unfold failure, answer, resolved.
  analyze_split p env w; intros Henter Hf Hdd; simplify_eq;
    rewrite ?Hup, ?Herr, ?Hdata, ?Hdb in Hf; simplify_eq.
  rewrite Hsto, Hrows. unfold row_of, resolved. split; [done|]. split.
  - by apply delete_insert_id.
  - rewrite filter_app, (filter_all _ _ Hnew). cbn.
    rewrite decide_False by (intros H; by apply H). by rewrite app_nil_r.
Qed.

(** ** What the upload page shows *)

(** X8. On the upload page, with a file selected and no result shown, a
    call of [handleAnalyze] that fails at any stage leaves the Analyze
    button on the page, enabled, with the same file, and shows no result,
    so the user can try again; a call that succeeds takes the button away
    and shows the card of the analysis it received. In both cases choosing
    another file afterwards brings the enabled button back and removes the
    card, and Analyze Another Plant empties the page. *)
Theorem upload_page_after_analyze env (w : World Upload.State) f u :
  Upload.selectedFile (ui w) = Some f ->
  Upload.user (ui w) = Some u ->
  Upload.result (ui w) = None ->
  let s' := ui (Upload.handleAnalyze env w) in
  match failure env u (Upload.fileName env u f) (bytes f) with
  | Some _ =>
      Upload.view_analyze (Upload.view s') = Some (false, "Analyze Plant") /\
      Upload.view_result (Upload.view s') = None /\
      Upload.selectedFile s' = Some f
  | None =>
      Upload.view_analyze (Upload.view s') = None /\
      exists d,
        inv_data (answer env (Upload.fileName env u f)) = Some d /\
        Upload.view_result (Upload.view s') =
          Some (Upload.mkResultCard (or_string (disease d) "No disease detected")
                  (diagnosis d) (recommendations d)
                  (render_confidence (confidence d)))
  end /\
  (forall f2 url,
      let s2 := Upload.handleFileSelect (Some f2) url s' in
      Upload.view_analyze (Upload.view s2) = Some (false, "Analyze Plant") /\
      Upload.view_result (Upload.view s2) = None /\
      Upload.selectedFile s2 = Some f2) /\
  Upload.handleFileSelect None "" s' = s' /\
  Upload.view (Upload.analyzeAnother s') = Upload.mkView None None None.
Proof.
  intros Hf Hu Hr. cbn zeta.
  pose proof (handleAnalyze_settles env w f u Hf Hu) as Hs.
  unfold settles in Hs. unfold failure.
  destruct Hs as [_ Hs].
  destruct (storage_upload env _ _) as [e|];
    [destruct Hs as (_ & _ & -> & _)|destruct Hs as [_ Hs]].
  2: destruct (inv_error (answer env _)) as [e|];
    [destruct Hs as (_ & -> & _)|].
  3: destruct (inv_data (answer env _)) as [d|];
    [|destruct Hs as (_ & -> & _)].
  3: destruct (db_insert env _) as [e|]; destruct Hs as (_ & -> & _).
  all: unfold Upload.view, Upload.handleFileSelect, Upload.analyzeAnother; cbn;
    rewrite ?Hf, ?Hr; cbn; repeat split; eauto.
Qed.

(** ** The history page *)

Lemma deleteScan_of_current env scanId imageUrl (w : World History.State) :
  History.deleteScan_of (History.scans (ui w)) env scanId imageUrl w =
  History.deleteScan env scanId imageUrl w.
Proof.
  unfold History.deleteScan_of, History.deleteScan, try_catch, try_catch_finally,
    History.deleteScan_try_of, History.deleteScan_try, bind, remove, delete_scan.
  destruct (History.removed_path imageUrl) as [path|]; cbn;
    [destruct (storage_remove env [path]); cbn|];
    destruct (db_delete env scanId); reflexivity.
Qed.

Lemma deleteScan_of_settles seen env scanId imageUrl (w : World History.State) :
  let w' := History.deleteScan_of seen env scanId imageUrl w in
  History.scans (ui w') =
    match db_delete env scanId with
    | None => filter (fun r => row_id r <> scanId) seen
    | Some _ => History.scans (ui w)
    end /\
  plant_scans w' =
    match db_delete env scanId with
    | None => filter (fun r => row_id r <> scanId) (plant_scans w)
    | Some _ => plant_scans w
    end.
Proof.
  cbn zeta.
  unfold History.deleteScan_of, try_catch, try_catch_finally,
    History.deleteScan_try_of, bind, remove, delete_scan.
  destruct (History.removed_path imageUrl) as [path|]; cbn;
    [destruct (storage_remove env [path]); cbn|];
    destruct (db_delete env scanId); split; reflexivity.
Qed.

(** X9. [deleteScan] sets the list of the history page from the list its
    render showed, not from the list the state holds when the table has
    answered: when the table accepts the deletion the list becomes the
    list of that render without the scans of the given key, and otherwise it
    is left as it is. For the handler of the render of the current state
    this is the state's list without those scans. A call that runs with no
    other call in between keeps the list within the table when the list and
    the list of its render were within the table before; but every other
    scan of the list of its render is listed afterwards, also one that is no
    longer in the state's list or in the table. *)
Theorem deleteScan_keeps_list_in_table seen env scanId imageUrl (w : World History.State) :
  let w' := History.deleteScan_of seen env scanId imageUrl w in
  History.scans (ui w') =
    match db_delete env scanId with
    | None => filter (fun r => row_id r <> scanId) seen
    | Some _ => History.scans (ui w)
    end /\
  History.deleteScan_of (History.scans (ui w)) env scanId imageUrl w =
    History.deleteScan env scanId imageUrl w /\
  (listed_in_table w -> (forall r, r ∈ seen -> r ∈ plant_scans w) ->
   listed_in_table w') /\
  (db_delete env scanId = None ->
   forall r, r ∈ seen -> row_id r <> scanId -> r ∈ History.scans (ui w')).
Proof.
  cbn zeta.
  destruct (deleteScan_of_settles seen env scanId imageUrl w) as [Hl Ht].
  split; [done|]. split; [apply deleteScan_of_current|]. split.
  - intros Hin Hseen r. rewrite Hl, Ht.
    destruct (db_delete env scanId); [apply Hin|].
    rewrite !list_elem_of_filter. intros [? ?]. split; [done|by apply Hseen].
  - intros Hd r Hr Hne. rewrite Hl, Hd. by apply list_elem_of_filter.
Qed.

(** X10. Whatever the table answers to the query of [loadScans], the page
    stops showing Loading. On the page as first mounted, a query that fails
    ends in the same body as a query that finds no scan, "No scans yet",
    with the toast "Failed to load scan history" as the only difference; a
    query that succeeds with [null] for its data does too, without the
    toast; a query that finds scans shows one card for each, in the order
    of the answer. *)
Theorem loadScans_on_mount (response : History.SelectResponse) (w : World History.State) :
  let w' := History.loadScans response w in
  History.loading (ui w') = false /\
  History.body (ui w') <> History.Loading /\
  (History.scans (ui w) = [] ->
   match History.sel_error response, History.sel_data response with
   | Some _, _ =>
       History.body (ui w') = History.NoScansYet /\
       new_events w w' = [EvToastError "Failed to load scan history"]
   | None, None | None, Some [] =>
       History.body (ui w') = History.NoScansYet /\ new_events w w' = []
   | None, Some (r :: l) =>
       History.body (ui w') = History.Cards (map History.card (r :: l)) /\
       new_events w w' = []
   end).
Proof.
  cbn zeta. unfold History.loadScans, try_catch_finally, History.loadScans_try,
    bind, History.body, new_events.
  destruct (History.sel_error response) as [e|]; cbn.
  - split; [done|]. split; [by destruct (History.scans (ui w))|].
    intros ->. by rewrite drop_app_length.
  - split; [done|].
    split; [by destruct (default [] (History.sel_data response))|].
    intros _. rewrite drop_all.
    by destruct (History.sel_data response) as [[|r l]|].
Qed.

Lemma slice_to_length n s : String.length (Js.slice_to n s) = Nat.min n (String.length s).
Proof.
  revert s. induction n as [|n IH]; intros [|c s]; cbn; try done. by rewrite IH.
Qed.

Lemma slice_to_all n s : (String.length s <= n)%nat -> slice_to n s = s.
Proof.
  revert s. induction n as [|n IH]; intros [|c s] H; cbn in *; try done; try lia.
  rewrite IH; [done|lia].
Qed.

Lemma append_length (a b : string) :
  String.length (a +:+ b) = (String.length a + String.length b)%nat.
Proof.
  induction a as [|c a IH]; [done|].
  change (S (String.length (a +:+ b)) = S (String.length a + String.length b)).
  by rewrite IH.
Qed.

(** X11. The diagnosis line of a history card is absent exactly when the
    diagnosis is [null] or empty; otherwise it is the first hundred
    characters of the diagnosis followed by three dots, so it is never
    longer than 103 characters, and a diagnosis of at most a hundred
    characters is shown whole, the three dots added all the same. *)
Theorem diagnosis_line_bounded (d : option string) :
  match History.render_diagnosis d with
  | None => truthy_string d = false
  | Some shown =>
      exists text,
        d = Some text /\ text <> "" /\
        shown = slice_to 100 text +:+ "..." /\
        (String.length shown <= 103)%nat /\
        ((String.length text <= 100)%nat -> shown = text +:+ "...")
  end.
Proof.
  unfold History.render_diagnosis.
  destruct d as [[|c text]|]; cbn [truthy_string]; try done.
  exists (String c text). split; [done|]. split; [done|]. split; [done|]. split.
  - unfold interpolate, default; cbn [from_option id].
    rewrite append_length, slice_to_length. cbn [String.length]. lia.
  - intros H. unfold interpolate, default; cbn [from_option id].
    by rewrite slice_to_all.
Qed.

(** ** The percentage shown for a confidence *)

Lemma Math_round_mono (a b : Q) : (a <= b)%Q -> (Math_round a <= Math_round b)%Z.
Proof.
  intros H. unfold Math_round. apply Qfloor_resp_le.
  by apply Qplus_le_l.
Qed.

Section Percentage.
Import SpecFloat.
Local Open Scope Z_scope.

Lemma digits2_pos_size p : digits2_pos p = Pos.size p.
Proof. induction p as [p IH|p IH|]; cbn; by rewrite ?IH. Qed.

Lemma digits2_pos_bounds p :
  2 ^ (Zpos (digits2_pos p) - 1) <= Zpos p < 2 ^ Zpos (digits2_pos p).
Proof.
  rewrite digits2_pos_size. split.
  - pose proof (Pos.size_le p) as H.
    assert (Zpos (2 ^ Pos.size p) <= Zpos (2 * p)) as H' by lia.
    rewrite Pos2Z.inj_pow in H'.
    replace (Zpos (Pos.size p)) with (Zpos (Pos.size p) - 1 + 1) in H' by lia.
    rewrite Z.pow_add_r in H' by lia. lia.
  - pose proof (Pos.size_gt p) as H.
    assert (Zpos p < Zpos (2 ^ Pos.size p)) as H' by lia.
    by rewrite Pos2Z.inj_pow in H'.
Qed.

Lemma iter_pos_nat {A} (f : A -> A) n x :
  iter_pos f n x = Nat.iter (Pos.to_nat n) f x.
Proof.
  revert x. induction n as [n IH|n IH|]; intros x; cbn [iter_pos].
  - rewrite !IH, Pos2Nat.inj_xI, <- Nat.iter_add, <- Nat.iter_succ_r.
    f_equal. lia.
  - rewrite !IH, Pos2Nat.inj_xO, <- Nat.iter_add. f_equal. lia.
  - done.
Qed.

Lemma shr_1_spec m r s :
  0 <= m ->
  shr_1 (Build_shr_record m r s) = Build_shr_record (m / 2) (Z.odd m) (r || s).
Proof.
  intros Hm. destruct m as [|[p|p|]|p]; try lia; cbn [shr_1 Z.odd]; f_equal.
  - by rewrite Pos2Z.inj_xI, Z.mul_comm, Z.div_add_l.
  - by rewrite Pos2Z.inj_xO, Z.mul_comm, Z.div_mul.
Qed.

Lemma shr_iter_m (k : nat) m r s :
  0 <= m ->
  shr_m (Nat.iter k shr_1 (Build_shr_record m r s)) = m / 2 ^ Z.of_nat k.
Proof.
  intros Hm. induction k as [|k IH].
  - cbn. by rewrite Z.div_1_r.
  - rewrite Nat.iter_succ.
    destruct (Nat.iter k shr_1 (Build_shr_record m r s)) as [mk rk sk].
    cbn [shr_m] in IH. subst mk.
    assert (0 < 2 ^ Z.of_nat k) as Hpos by (apply Z.pow_pos_nonneg; lia).
    rewrite shr_1_spec by (apply Z.div_pos; lia). cbn [shr_m].
    rewrite Nat2Z.inj_succ, Z.pow_succ_r by lia.
    rewrite Z.div_div by lia. f_equal. lia.
Qed.

Lemma shr_iter_exact (k : nat) m :
  0 <= m -> m mod 2 ^ Z.of_nat k = 0 ->
  loc_of_shr_record (Nat.iter k shr_1 (Build_shr_record m false false)) = loc_Exact.
Proof.
  intros Hm. induction k as [|k IH]; [done|].
  rewrite Nat.iter_succ. intros Hmod.
  pose proof (shr_iter_m k m false false Hm) as Hk.
  assert (0 < 2 ^ Z.of_nat k) as Hpos by (apply Z.pow_pos_nonneg; lia).
  rewrite Nat2Z.inj_succ, Z.pow_succ_r in Hmod by lia.
  apply Z.mod_divide in Hmod; [|lia]. destruct Hmod as [q Hq].
  assert (m mod 2 ^ Z.of_nat k = 0) as H0.
  { apply Z.mod_divide; [lia|]. exists (q * 2). lia. }
  specialize (IH H0).
  destruct (Nat.iter k shr_1 (Build_shr_record m false false)) as [mk rk sk].
  cbn [shr_m] in Hk. subst mk.
  rewrite shr_1_spec by (apply Z.div_pos; lia).
  destruct rk, sk; try done.
  replace m with ((2 * q) * 2 ^ Z.of_nat k) by lia.
  rewrite Z.div_mul by lia. by rewrite Z.odd_mul, Z.odd_2.
Qed.

(** One stage of the rounding of a product that is at most 100. *)
Lemma shr_fexp_le_100 m e l :
  0 <= m -> e <= -46 -> m <= 100 * 2 ^ (- e) ->
  exists k mrs e',
    shr_fexp 53 1024 m e l = (mrs, e') /\
    0 <= k /\ e' = e + k /\ e' <= -46 /\ shr_m mrs = m / 2 ^ k /\
    (l = loc_Exact -> m mod 2 ^ k = 0 -> loc_of_shr_record mrs = loc_Exact).
Proof.
  intros Hm He Hle. unfold shr_fexp, shr.
  destruct (fexp 53 1024 (Zdigits2 m + e) - e) as [|n|n] eqn:Hn.
  - exists 0. do 2 eexists. split; [done|]. rewrite Z.div_1_r.
    split; [lia|]. split; [lia|]. split; [done|]. split; [by destruct l as [|[]]|].
    by intros ->.
  - exists (Zpos n). do 2 eexists. split; [done|].
    assert (Zdigits2 m + e <= 7) as Hd.
    { destruct m as [|p|p]; cbn [Zdigits2]; [lia| |lia].
      pose proof (digits2_pos_bounds p) as [Hlo _].
      assert (Zpos p < 2 ^ (7 - e)) as Hlt.
      { replace (7 - e) with (7 + - e) by lia. rewrite Z.pow_add_r by lia.
        assert (0 < 2 ^ (- e)) by (apply Z.pow_pos_nonneg; lia). lia. }
      assert (2 ^ (Zpos (digits2_pos p) - 1) < 2 ^ (7 - e)) as Hpow by lia.
      apply Z.pow_lt_mono_r_iff in Hpow; lia. }
    unfold fexp, emin in Hn.
    split; [lia|]. split; [done|]. split; [lia|].
    rewrite iter_pos_nat. rewrite <- (positive_nat_Z n).
    split.
    + destruct l as [|[]]; cbn [shr_record_of_loc]; by apply shr_iter_m.
    + intros -> Hmod. by apply shr_iter_exact.
  - exists 0. do 2 eexists. split; [done|]. rewrite Z.div_1_r.
    split; [lia|]. split; [lia|]. split; [done|]. split; [by destruct l as [|[]]|].
    by intros ->.
Qed.

Lemma pow2_split a k : 0 <= a -> 0 <= k -> 2 ^ (a + k) = 2 ^ a * 2 ^ k.
Proof. intros. by rewrite Z.pow_add_r. Qed.

Lemma round_nearest_even_le m l : m <= round_nearest_even m l <= m + 1.
Proof. destruct l as [|[]]; cbn; try lia. destruct (Z.even m); lia. Qed.

(** The rounding of a positive product that is at most 100 is at most
    100. *)
Lemma binary_round_aux_le_100 M E :
  0 < M -> E <= -46 -> M <= 100 * 2 ^ (- E) ->
  match binary_round_aux 53 1024 false M E loc_Exact with
  | S754_zero s => s = false
  | S754_finite s mf ef => s = false /\ ef <= -46 /\ Zpos mf <= 100 * 2 ^ (- ef)
  | _ => False
  end.
Proof.
  intros HM HE Hle. unfold binary_round_aux.
  destruct (shr_fexp_le_100 M E loc_Exact ltac:(lia) HE Hle)
    as (k1 & mrs1 & e1 & -> & Hk1 & He1 & He1' & Hm1 & Hex1).
  set (m2 := round_nearest_even (shr_m mrs1) (loc_of_shr_record mrs1)).
  assert (0 < 2 ^ k1) as Hp1 by (apply Z.pow_pos_nonneg; lia).
  assert (0 < 2 ^ (- e1)) as Hpe1 by (apply Z.pow_pos_nonneg; lia).
  assert (M <= 2 ^ k1 * (100 * 2 ^ (- e1))) as HM1.
  { replace (- E) with (- e1 + k1) in Hle by lia.
    rewrite pow2_split in Hle by lia. lia. }
  assert (0 <= m2 <= 100 * 2 ^ (- e1)) as Hm2.
  { unfold m2. rewrite Hm1.
    assert (0 <= M / 2 ^ k1) by (apply Z.div_pos; lia).
    destruct (decide (M mod 2 ^ k1 = 0)) as [Hmod|Hmod].
    - rewrite (Hex1 eq_refl Hmod). cbn. split; [done|].
      apply Z.div_le_upper_bound; [done|]. lia.
    - pose proof (round_nearest_even_le (M / 2 ^ k1) (loc_of_shr_record mrs1)) as Hr.
      split; [lia|].
      assert (M <> 2 ^ k1 * (100 * 2 ^ (- e1))) as Hne.
      { intros Heq. apply Hmod. rewrite Heq, Z.mul_comm. by apply Z.mod_mul, Z.neq_sym, Z.lt_neq. }
      assert (M / 2 ^ k1 < 100 * 2 ^ (- e1)); [|lia].
      apply Z.div_lt_upper_bound; [done|]. lia. }
  clearbody m2.
  destruct (shr_fexp_le_100 m2 e1 loc_Exact ltac:(lia) He1' ltac:(lia))
    as (k2 & mrs2 & e2 & -> & Hk2 & He2 & He2' & Hm2' & _).
  assert (0 < 2 ^ k2) as Hp2 by (apply Z.pow_pos_nonneg; lia).
  assert (0 < 2 ^ (- e2)) as Hpe2 by (apply Z.pow_pos_nonneg; lia).
  assert (0 <= shr_m mrs2 <= 100 * 2 ^ (- e2)) as Hf.
  { rewrite Hm2'. split; [apply Z.div_pos; lia|].
    apply Z.div_le_upper_bound; [done|].
    replace (- e1) with (- e2 + k2) in Hm2 by lia.
    rewrite pow2_split in Hm2 by lia. lia. }
  destruct (shr_m mrs2) as [|mf|mf]; cbn match.
  - done.
  - rewrite (proj2 (Z.leb_le e2 (1024 - 53))) by lia. split; [done|]. lia.
  - lia.
Qed.

Lemma exact_le_1 m e :
  (Double.exact m e <= 1)%Q -> e <= 0 /\ Zpos m <= 2 ^ (- e).
Proof.
  unfold Double.exact, Qle. destruct e as [|p|p]; cbn [Qnum Qden].
  - intros H. split; [done|]. cbn. lia.
  - intros H. exfalso.
    assert (0 < 2 ^ Zpos p) by (apply Z.pow_pos_nonneg; lia).
    assert (2 ^ 1 <= 2 ^ Zpos p) by (apply Z.pow_le_mono_r; lia).
    change (2 ^ 1) with 2 in *. nia.
  - intros H. split; [lia|].
    change (- Zneg p) with (Zpos p). rewrite <- Pos2Z.inj_pow. lia.
Qed.

Lemma exact_pos m e : (0 < Double.exact m e)%Q.
Proof.
  unfold Double.exact, Qlt. destruct e as [|p|p]; cbn [Qnum Qden]; lia.
Qed.

Lemma exact_le_100 m e :
  e <= -46 -> Zpos m <= 100 * 2 ^ (- e) -> (Double.exact m e <= 100)%Q.
Proof.
  intros He Hle. destruct e as [|p|p]; try lia.
  unfold Double.exact, Qle. cbn [Qnum Qden].
  change (- Zneg p) with (Zpos p) in Hle. rewrite Pos2Z.inj_pow. lia.
Qed.

(** The product of a positive number that is at most 1 and 100. *)
Lemma times_hundred_le_100 m e :
  (Double.exact m e <= 1)%Q ->
  exists p, Double.round (Double.times (S754_finite false m e) Double.hundred) = Some p /\
            0 <= p <= 100.
Proof.
  intros H. apply exact_le_1 in H as [He Hm].
  unfold Double.times, Double.hundred, SFmul. cbn [xorb].
  assert (0 < 2 ^ (- e)) by (apply Z.pow_pos_nonneg; lia).
  pose proof (binary_round_aux_le_100 (Zpos (m * 7036874417766400)) (e + -46)
                ltac:(lia) ltac:(lia)) as Hr.
  destruct (binary_round_aux 53 1024 false (Zpos (m * 7036874417766400)) (e + -46)
              loc_Exact) as [s| |  |s mf ef].
  - exists 0. split; [done|lia].
  - exfalso. apply Hr.
    replace (- (e + -46)) with (46 + - e) by lia. rewrite pow2_split by lia.
    change (2 ^ 46) with 70368744177664. lia.
  - exfalso. apply Hr.
    replace (- (e + -46)) with (46 + - e) by lia. rewrite pow2_split by lia.
    change (2 ^ 46) with 70368744177664. lia.
  - destruct Hr as (-> & Hef & Hmf).
    { replace (- (e + -46)) with (46 + - e) by lia. rewrite pow2_split by lia.
      change (2 ^ 46) with 70368744177664. lia. }
    unfold Double.round, Double.value. cbn [option_map].
    eexists. split; [done|]. split.
    + change 0 with (Math_round 0). apply Math_round_mono, Qlt_le_weak, exact_pos.
    + change 100 with (Math_round 100). by apply Math_round_mono, exact_le_100.
Qed.

(** X12. The pages compute the percentage in binary64 arithmetic: the
    confidence times 100 is rounded to the nearest number before
    [Math.round] is taken. For a confidence that is a number within [0,1]
    the pages show the number itself when it is a zero (the bare figure 0)
    and otherwise a whole percentage between 0 and 100: never nothing, and
    never an infinity. *)
Theorem percentage_within_range (c : spec_float) (q : Q) :
  Double.value c = Some q -> (0 <= q)%Q -> (q <= 1)%Q ->
  match Double.render_confidence (Some c) with
  | Double.ShownNothing => False
  | Double.ShownNumber x => x = c /\ (q == 0)%Q
  | Double.ShownPercent p =>
      ~ (q == 0)%Q /\ exists z, p = Some z /\ 0 <= z <= 100
  end.
Proof.
  intros Hv H0 H1. destruct c as [s| | |s m e]; try done.
  - injection Hv as <-. done.
  - cbn in Hv. injection Hv as <-. destruct s.
    + exfalso. pose proof (exact_pos m e) as Hp.
      unfold Qle, Qlt, Qopp in *. cbn [Qnum Qden] in *. lia.
    + cbn [Double.render_confidence Double.truthy]. split.
      * intros Heq. pose proof (exact_pos m e) as Hp. rewrite Heq in Hp.
        by apply Qlt_irrefl in Hp.
      * by apply times_hundred_le_100.
Qed.

End Percentage.

(** ** The camera page under its own controls *)

Lemma render_ui h :
  Scan.state (ui (Scan.render h)) = Scan.state (ui h) /\
  Scan.videoRef (ui (Scan.render h)) =
    (if Scan.capturing (Scan.state (ui h))
     then Some (match Scan.videoRef (ui h) with Some v => v | None => None end)
     else None).
Proof. unfold Scan.render. by case_decide. Qed.

(** The page state and the refs after [analyzeImage]. *)
Lemma analyzeImage_ui env (w : World Scan.Comp) :
  let h := Scan.analyzeImage env w in
  Scan.videoRef (ui h) = Scan.videoRef (ui w) /\
  Scan.state (ui h) =
    match entered ScanPage env w with
    | Some (u, path, body) =>
        match failure env u path body, inv_data (answer env path) with
        | None, Some d =>
            Scan.setAnalyzing false (Scan.setResult (Some d) (Scan.state (ui w)))
        | _, _ => Scan.setAnalyzing false (Scan.state (ui w))
        end
    | None =>
        if accepted ScanPage w
        then Scan.setAnalyzing false (Scan.state (ui w))
        else Scan.state (ui w)
    end.
Proof.
  cbn zeta. change (Scan.analyzeImage env w) with (analyze ScanPage env w).
  unfold failure, answer, resolved.
  analyze_split ScanPage env w;
    unfold analyze, set_analyzing, set_result, page_state in *;
    rewrite ?Hw, ?Hui, Hent, ?Hacc, ?Hup, ?Herr, ?Hdata, ?Hdb; done.
Qed.

Lemma startCamera_ui env (w : World Scan.Comp) :
  Scan.videoRef (ui w) = None ->
  let h := Scan.startCamera env w in
  Scan.videoRef (ui h) = None /\
  Scan.state (ui h) =
    match getUserMedia env with
    | inl _ => Scan.state (ui w)
    | inr _ =>
        Scan.setCapturing true
          (Scan.setStream (Some (length (camera w))) (Scan.state (ui w)))
    end.
Proof.
  intros Hv. cbn zeta.
  unfold Scan.startCamera, try_catch, try_catch_finally, Scan.startCamera_try,
    bind, Scan.acquire.
  destruct (getUserMedia env) as [e|n]; cbn; [done|].
  unfold Scan.set_srcObject; cbn. by rewrite Hv.
Qed.

Lemma stopCamera_ui (w : World Scan.Comp) :
  let h := Scan.stopCamera w in
  Scan.videoRef (ui h) = Scan.videoRef (ui w) /\
  Scan.capturing (Scan.state (ui h)) = false /\
  Scan.capturedImage (Scan.state (ui h)) = Scan.capturedImage (Scan.state (ui w)) /\
  Scan.result (Scan.state (ui h)) = Scan.result (Scan.state (ui w)).
Proof.
  cbn zeta. unfold Scan.stopCamera.
  by destruct (Scan.stream (Scan.state (ui w))).
Qed.

Lemma coherent_not_capturing s :
  coherent s -> truthy_string (Scan.capturedImage s) = true -> Scan.capturing s = false.
Proof.
  intros [Hc _] Hi. destruct (Scan.capturing s); [|done].
  rewrite Hc in Hi; done.
Qed.

Lemma coherent_no_result s :
  coherent s -> truthy_string (Scan.capturedImage s) = false -> Scan.result s = None.
Proof.
  intros [_ Hr] Hi. destruct (Scan.result s); [|done].
  rewrite Hr in Hi; done.
Qed.

(** Every offered action takes the page in use to the page in use. *)
Lemma offered_step_in_use env a w :
  in_use w -> Scan.offered a (Scan.state (ui w)) = true -> in_use (Scan.step env a w).
Proof.
  intros (Hrest & Hco & Hvid) Hoff.
  split; [by apply step_at_rest|].
  unfold Scan.step, video_unbound.
  destruct (render_ui (Scan.handler env a w)) as [-> ->].
  unfold video_unbound in Hvid. unfold coherent.
  destruct a; cbn [Scan.handler Scan.offered] in *.
  - apply andb_true_iff in Hoff as [Hc Hi].
    apply negb_true_iff in Hc, Hi. rewrite Hc in Hvid.
    destruct (startCamera_ui env w Hvid) as [-> ->].
    pose proof (coherent_no_result _ Hco Hi) as Hr.
    destruct (getUserMedia env); cbn; rewrite ?Hc, ?Hi, ?Hr; done.
  - rewrite Hoff in Hvid. destruct Hrest as (_ & _ & _ & _ & _ & Hcan & _).
    pose proof (proj1 Hco Hoff) as Hi.
    pose proof (coherent_no_result _ Hco Hi) as Hr.
    unfold Scan.captureImage. rewrite Hvid, Hcan.
    destruct (canvas_context env).
    + destruct (stopCamera_ui
        (set_ui (Scan.set_state (Scan.setCapturedImage (Some (canvas_toDataURL env)))) w))
        as (-> & -> & -> & ->). cbn. rewrite Hr. done.
    + split; [apply Hco|by rewrite Hoff, Hvid].
  - destruct (stopCamera_ui w) as (-> & -> & -> & ->).
    pose proof (proj1 Hco Hoff) as Hi.
    pose proof (coherent_no_result _ Hco Hi) as Hr.
    rewrite Hr. done.
  - apply andb_true_iff in Hoff as [Hoff _]. apply andb_true_iff in Hoff as [Hi _].
    pose proof (coherent_not_capturing _ Hco Hi) as Hc.
    destruct (analyzeImage_ui env w) as [-> ->].
    assert (forall s', Scan.capturing s' = Scan.capturing (Scan.state (ui w)) ->
                       Scan.capturedImage s' = Scan.capturedImage (Scan.state (ui w)) ->
                       ((Scan.capturing s' = true ->
                         truthy_string (Scan.capturedImage s') = false) /\
                        (truthy_object (Scan.result s') = true ->
                         truthy_string (Scan.capturedImage s') = true)) /\
                       (if Scan.capturing s'
                        then Some (match Scan.videoRef (ui w) with
                                   | Some v => v | None => None end)
                        else None) =
                       (if Scan.capturing s' then Some None else None)) as Hgen.
    { intros s' Hc' Hi'. rewrite Hc', Hi', Hc, Hi. done. }
    destruct (entered ScanPage env w) as [[[u path] body]|].
    + destruct (failure env u path body) as [[st e]|]; [by apply Hgen|].
      destruct (inv_data (answer env path)); by apply Hgen.
    + destruct (accepted ScanPage w); by apply Hgen.
  - cbn. apply andb_true_iff in Hoff as [Hi _].
    pose proof (coherent_not_capturing _ Hco Hi) as Hc. rewrite Hc. done.
  - assert (truthy_string (Scan.capturedImage (Scan.state (ui w))) = true) as Hi
      by (by apply Hco).
    pose proof (coherent_not_capturing _ Hco Hi) as Hc. rewrite Hc in Hvid.
    unfold Scan.scanAnother.
    destruct (startCamera_ui env (Scan.retake w) Hvid) as [-> ->].
    destruct (getUserMedia env); cbn; rewrite ?Hc; done.
Qed.

Lemma initial_in_use u : in_use (Scan.initial u).
Proof. split; [apply initial_at_rest|]. split; [split|]; done. Qed.

Lemma offered_run_in_use trace w :
  in_use w -> Scan.offered_run trace w = true -> in_use (Scan.run trace w).
Proof.
  revert w. induction trace as [|[env a] trace IH]; intros w Hw Hoff; [done|].
  cbn in *. apply andb_true_iff in Hoff as [Ha Hrest].
  apply IH; [by apply offered_step_in_use|done].
Qed.

Lemma active_streams_at_most_one cam j :
  (forall i, is_active cam i = true -> i = j) ->
  (length (active_streams cam) <= 1)%nat.
Proof.
  intros H. pose proof (active_streams_NoDup cam) as Hnd.
  assert (forall i, i ∈ active_streams cam -> i = j) as Hj.
  { intros i Hi. by apply H, elem_of_active_streams. }
  destruct (active_streams cam) as [|a [|b l]]; cbn; [lia|lia|]. exfalso.
  pose proof (Hj a ltac:(set_solver)) as ->.
  pose proof (Hj b ltac:(set_solver)) as ->.
  apply NoDup_cons in Hnd as [Hni _]. set_solver.
Qed.

Lemma analyze_camera (p : Page) env (w : World (page_state p)) :
  camera (analyze p env w) = camera w.
Proof. analyze_split p env w; done. Qed.

(** What a handler of the camera page does to the streams of the device:
    nothing, or stop one, or, when it is one of the two that start the
    camera, add one. *)
Lemma handler_camera env a (w : World Scan.Comp) :
  camera (Scan.handler env a w) = camera w \/
  (exists sid, camera (Scan.handler env a w) = alter stop_tracks sid (camera w)) \/
  (exists s, camera (Scan.handler env a w) = camera w ++ [s] /\
             (a = Scan.StartCamera \/ a = Scan.ScanAnotherPlant)).
Proof.
  assert (forall w' : World Scan.Comp,
             camera (Scan.startCamera env w') = camera w' \/
             exists s, camera (Scan.startCamera env w') = camera w' ++ [s]) as Hstart.
  { intros w'. unfold Scan.startCamera, try_catch, try_catch_finally,
      Scan.startCamera_try, bind, Scan.acquire.
    destruct (getUserMedia env); cbn; [by left|].
    unfold Scan.set_srcObject; cbn. destruct (Scan.videoRef (ui w')); cbn; eauto. }
  assert (forall w' : World Scan.Comp,
             camera (Scan.stopCamera w') = camera w' \/
             exists sid, camera (Scan.stopCamera w') = alter stop_tracks sid (camera w'))
    as Hstop.
  { intros w'. unfold Scan.stopCamera.
    destruct (Scan.stream (Scan.state (ui w'))); cbn; eauto. }
  destruct a; cbn [Scan.handler].
  - destruct (Hstart w) as [?|[s ?]]; eauto 6.
  - unfold Scan.captureImage.
    destruct (Scan.videoRef (ui w)), (Scan.canvasRef (ui w)), (canvas_context env);
      try (by left).
    destruct (Hstop (set_ui (Scan.set_state
               (Scan.setCapturedImage (Some (canvas_toDataURL env)))) w)) as [?|?]; eauto.
  - destruct (Hstop w) as [?|?]; eauto.
  - left. apply (analyze_camera ScanPage).
  - by left.
  - unfold Scan.scanAnother. destruct (Hstart (Scan.retake w)) as [?|[s ?]]; eauto 6.
Qed.

Lemma render_camera (h : World Scan.Comp) :
  camera (Scan.render h) = camera h \/
  exists sid, camera (Scan.render h) = alter stop_tracks sid (camera h).
Proof.
  unfold Scan.render. case_decide; [by left|].
  destruct (Scan.effect_stream (ui h)); cbn; eauto.
Qed.

(** No action and no render makes a stream of the device active. *)
Lemma step_no_revive env a (w : World Scan.Comp) i :
  (i < length (camera w))%nat ->
  is_active (camera (Scan.step env a w)) i = true -> is_active (camera w) i = true.
Proof.
  intros Hi. unfold Scan.step.
  assert (is_active (camera (Scan.handler env a w)) i = true ->
          is_active (camera w) i = true) as Hh.
  { destruct (handler_camera env a w) as [-> | [[sid ->] | (s & -> & _)]]; [done| |].
    - rewrite is_active_alter_stop. by case_decide.
    - rewrite is_active_app. by rewrite decide_True. }
  destruct (render_camera (Scan.handler env a w)) as [-> | [sid ->]]; [done|].
  rewrite is_active_alter_stop. by case_decide.
Qed.

Lemma step_camera_length env a (w : World Scan.Comp) :
  (length (camera w) <= length (camera (Scan.step env a w)))%nat.
Proof.
  unfold Scan.step.
  destruct (render_camera (Scan.handler env a w)) as [-> | [sid ->]];
    rewrite ?length_alter;
    destruct (handler_camera env a w) as [-> | [[sid' ->] | (s & -> & _)]];
    rewrite ?length_alter, ?length_app; cbn; lia.
Qed.


(** X13. However the buttons of the camera page are used, one at a time
    and each only while it is offered, the page shows exactly one of its
    four blocks; it is the block with the video exactly when the component
    holds a stream, and while any other block is shown no stream of the
    device is active. *)
Theorem one_panel_at_a_time trace u :
  Scan.offered_run trace (Scan.initial u) = true ->
  let w := Scan.run trace (Scan.initial u) in
  exists panel,
    Scan.panels (Scan.state (ui w)) = [panel] /\
    (panel = Scan.VideoPanel <-> is_Some (Scan.stream (Scan.state (ui w)))) /\
    (panel <> Scan.VideoPanel -> active_streams (camera w) = []).
Proof.
  intros Hoff w.
  pose proof (offered_run_in_use trace _ (initial_in_use u) Hoff) as (Hrest & Hco & _).
  fold w in Hrest, Hco.
  pose proof Hrest as (_ & _ & _ & Hcap & _).
  unfold Scan.panels.
  destruct (Scan.capturing (Scan.state (ui w))) eqn:Hc.
  - rewrite (proj1 Hco Hc), (coherent_no_result _ Hco (proj1 Hco Hc)). cbn.
    exists Scan.VideoPanel. split; [done|]. split; [|done].
    destruct (Scan.stream (Scan.state (ui w))); [by split; eauto|done].
  - assert (Scan.stream (Scan.state (ui w)) = None) as Hs
      by (by destruct (Scan.stream (Scan.state (ui w)))).
    pose proof (at_rest_no_stream w Hrest Hs) as Hnone.
    assert (forall pnl, pnl <> Scan.VideoPanel ->
              (pnl = Scan.VideoPanel <-> is_Some (Scan.stream (Scan.state (ui w))))) as Hiff.
    { intros pnl Hp. rewrite Hs. split; [done|]. by intros [? ?]. }
    destruct (truthy_string (Scan.capturedImage (Scan.state (ui w)))) eqn:Hi.
    + destruct (Scan.result (Scan.state (ui w))); cbn.
      * exists Scan.ResultPanel. split; [done|]. split; [by apply Hiff|done].
      * exists Scan.PreviewPanel. split; [done|]. split; [by apply Hiff|done].
    + rewrite (coherent_no_result _ Hco Hi). cbn.
      exists Scan.StartPanel. split; [done|]. split; [by apply Hiff|done].
Qed.

(** X14. However the buttons of the camera page are used, one at a time
    and each only while it is offered, the two buttons that start the
    camera are offered only when the component holds no stream and no
    stream of the device is active; so at most one stream is active not
    only once the page has rendered again but also when a handler has just
    returned. *)
Theorem never_two_active_streams trace u env a :
  Scan.offered_run trace (Scan.initial u) = true ->
  let w := Scan.run trace (Scan.initial u) in
  Scan.offered a (Scan.state (ui w)) = true ->
  (a = Scan.StartCamera \/ a = Scan.ScanAnotherPlant ->
   Scan.stream (Scan.state (ui w)) = None /\ active_streams (camera w) = []) /\
  (length (active_streams (camera (Scan.handler env a w))) <= 1)%nat.
Proof.
  intros Hrun w Hoff.
  pose proof (offered_run_in_use trace _ (initial_in_use u) Hrun) as (Hrest & Hco & _).
  fold w in Hrest, Hco.
  pose proof Hrest as (_ & Hact & Hlt & Hcap & _).
  assert (a = Scan.StartCamera \/ a = Scan.ScanAnotherPlant ->
          Scan.stream (Scan.state (ui w)) = None) as Hnone.
  { intros Ha.
    assert (Scan.capturing (Scan.state (ui w)) = false) as Hc.
    { destruct Ha as [-> | ->]; cbn in Hoff.
      - apply andb_true_iff in Hoff as [Hc _]. by apply negb_true_iff in Hc.
      - apply coherent_not_capturing; [done|]. by apply Hco. }
    rewrite Hc in Hcap. by destruct (Scan.stream (Scan.state (ui w))). }
  split.
  - intros Ha. split; [by apply Hnone|]. apply at_rest_no_stream; [done|by apply Hnone].
  - destruct (handler_camera env a w) as [-> | [[sid ->] | (s & -> & Ha)]].
    + destruct (Scan.stream (Scan.state (ui w))) as [j|] eqn:Hs.
      * apply (active_streams_at_most_one _ j). intros i Hi.
        apply Hact in Hi. congruence.
      * apply (active_streams_at_most_one _ 0%nat). intros i Hi.
        apply Hact in Hi. congruence.
    + destruct (Scan.stream (Scan.state (ui w))) as [j|] eqn:Hs.
      * apply (active_streams_at_most_one _ j). intros i.
        rewrite is_active_alter_stop. case_decide; [done|].
        intros Hi. apply Hact in Hi. congruence.
      * apply (active_streams_at_most_one _ 0%nat). intros i.
        rewrite is_active_alter_stop. case_decide; [done|].
        intros Hi. apply Hact in Hi. congruence.
    + apply (active_streams_at_most_one _ (length (camera w))). intros i.
      rewrite is_active_app. case_decide as Hi; [|by case_decide].
      intros Ha'. apply Hact in Ha'. rewrite (Hnone Ha) in Ha'. done.
Qed.

(** X15. However the buttons of the camera page are used, one at a time
    and each only while it is offered, [startCamera] never finds the video
    element mounted, so it never sets its [srcObject]: while the page is
    capturing it holds a stream and the video element is mounted with no
    [srcObject], and otherwise the video element is not mounted. *)
Theorem video_never_given_the_stream trace u :
  Scan.offered_run trace (Scan.initial u) = true ->
  let w := Scan.run trace (Scan.initial u) in
  if Scan.capturing (Scan.state (ui w))
  then is_Some (Scan.stream (Scan.state (ui w))) /\ Scan.videoRef (ui w) = Some None
  else Scan.stream (Scan.state (ui w)) = None /\ Scan.videoRef (ui w) = None.
Proof.
  intros Hrun w.
  pose proof (offered_run_in_use trace _ (initial_in_use u) Hrun) as (Hrest & _ & Hvid).
  fold w in Hrest, Hvid. unfold video_unbound in Hvid.
  destruct Hrest as (_ & _ & _ & Hcap & _).
  destruct (Scan.capturing (Scan.state (ui w))),
    (Scan.stream (Scan.state (ui w))); done.
Qed.

(** X16. When the device refuses the camera, Start Camera changes nothing
    but the log: after any sequence of actions the state of the component
    and the streams of the device are as before, the one request to the
    device and the toast "Failed to access camera" are all that happened,
    and the buttons offered are the same, so the user can try again. *)
Theorem refused_camera_changes_nothing trace u env e :
  getUserMedia env = inl e ->
  let w := Scan.run trace (Scan.initial u) in
  let w' := Scan.step env Scan.StartCamera w in
  Scan.state (ui w') = Scan.state (ui w) /\
  camera w' = camera w /\
  new_events w w' = [EvGetUserMedia; EvToastError "Failed to access camera"] /\
  forall a, Scan.offered a (Scan.state (ui w')) = Scan.offered a (Scan.state (ui w)).
Proof.
  intros He w w'.
  pose proof (run_at_rest trace _ (initial_at_rest u)) as (Heff & _).
  fold w in Heff.
  assert (Scan.state (ui w') = Scan.state (ui w) /\ camera w' = camera w /\
          log w' = log w ++ [EvGetUserMedia; EvToastError "Failed to access camera"])
    as (Hs & Hc & Hl).
  { unfold w', Scan.step, Scan.render. cbn [Scan.handler].
    unfold Scan.startCamera, try_catch, try_catch_finally, Scan.startCamera_try,
      bind, Scan.acquire. rewrite He. cbn.
    rewrite decide_True by done. cbn. by rewrite <- app_assoc. }
  split; [done|]. split; [done|]. split; [by apply new_events_app|].
  intros a. by rewrite Hs.
Qed.

(** X17. A stream of the device that is not active never becomes active
    again, whatever actions follow and whether or not they are offered, and
    the device never forgets a stream it has handed out; unmounting the
    page does not make a stream active either. *)
Theorem released_stream_stays_released trace (w : World Scan.Comp) i :
  (i < length (camera w))%nat ->
  is_active (camera w) i = false ->
  (length (camera w) <= length (camera (Scan.run trace w)))%nat /\
  is_active (camera (Scan.run trace w)) i = false /\
  is_active (camera (Scan.unmount (Scan.run trace w))) i = false.
Proof.
  revert w. induction trace as [|[env a] trace IH]; intros w Hi Ha.
  - cbn [Scan.run]. split; [done|]. split; [done|].
    unfold Scan.unmount. destruct (Scan.effect_stream (ui w)); cbn; [|done].
    rewrite is_active_alter_stop. by case_decide.
  - cbn [Scan.run].
    pose proof (step_camera_length env a w) as Hlen.
    assert (is_active (camera (Scan.step env a w)) i = false) as Ha'.
    { destruct (is_active (camera (Scan.step env a w)) i) eqn:H; [|done].
      apply step_no_revive in H; [congruence|done]. }
    destruct (IH (Scan.step env a w) ltac:(lia) Ha') as (? & ? & ?).
    split; [lia|done].
Qed.


(** X19. However the buttons of the camera page are used, one at a time
    and each only while it is offered, Retake and Scan Another Plant both
    discard the captured photo and the result. Retake asks nothing of the
    device and leaves the page on its start block with no stream active;
    Scan Another Plant asks the device for a stream and leaves the page on
    the video block when it is granted and on the start block when it is
    refused. *)
Theorem ways_back_to_the_camera trace u env :
  Scan.offered_run trace (Scan.initial u) = true ->
  let w := Scan.run trace (Scan.initial u) in
  (Scan.offered Scan.Retake (Scan.state (ui w)) = true ->
   let w' := Scan.step env Scan.Retake w in
   Scan.capturedImage (Scan.state (ui w')) = None /\
   Scan.result (Scan.state (ui w')) = None /\
   Scan.panels (Scan.state (ui w')) = [Scan.StartPanel] /\
   camera w' = camera w /\ new_events w w' = [] /\
   active_streams (camera w') = []) /\
  (Scan.offered Scan.ScanAnotherPlant (Scan.state (ui w)) = true ->
   let w' := Scan.step env Scan.ScanAnotherPlant w in
   Scan.capturedImage (Scan.state (ui w')) = None /\
   Scan.result (Scan.state (ui w')) = None /\
   filter is_getUserMedia (new_events w w') = [EvGetUserMedia] /\
   Scan.panels (Scan.state (ui w')) =
     match getUserMedia env with
     | inl _ => [Scan.StartPanel]
     | inr _ => [Scan.VideoPanel]
     end).
Proof.
  intros Hrun w.
  pose proof (offered_run_in_use trace _ (initial_in_use u) Hrun) as (Hrest & Hco & Hvid).
  fold w in Hrest, Hco, Hvid. unfold video_unbound in Hvid.
  pose proof Hrest as (Heff & _ & _ & Hcap & _).
  assert (truthy_string (Scan.capturedImage (Scan.state (ui w))) = true ->
          Scan.capturing (Scan.state (ui w)) = false /\
          Scan.stream (Scan.state (ui w)) = None) as Hidle.
  { intros Hi. pose proof (coherent_not_capturing _ Hco Hi) as Hc. split; [done|].
    rewrite Hc in Hcap. by destruct (Scan.stream (Scan.state (ui w))). }
  split.
  - intros Hoff w'. cbn in Hoff. apply andb_true_iff in Hoff as [Hi _].
    destruct (Hidle Hi) as [Hc Hs].
    assert (Scan.state (ui w') =
              Scan.setResult None (Scan.setCapturedImage None (Scan.state (ui w))) /\
            camera w' = camera w /\ log w' = log w) as (Hst & Hcam & Hlog).
    { unfold w', Scan.step, Scan.render. cbn [Scan.handler]. unfold Scan.retake. cbn.
      rewrite decide_True by done. done. }
    rewrite Hst, Hcam. unfold Scan.panels. cbn. rewrite Hc.
    do 4 (split; [done|]). split.
    + unfold new_events. rewrite Hlog. apply drop_all.
    + by apply at_rest_no_stream.
  - intros Hoff w'. cbn in Hoff.
    assert (truthy_string (Scan.capturedImage (Scan.state (ui w))) = true) as Hi
      by (by apply Hco).
    destruct (Hidle Hi) as [Hc Hs]. rewrite Hc in Hvid.
    destruct (render_ui (Scan.handler env Scan.ScanAnotherPlant w)) as [Hst _].
    fold (Scan.step env Scan.ScanAnotherPlant w) in Hst. fold w' in Hst.
    cbn [Scan.handler] in Hst. unfold Scan.scanAnother in Hst.
    destruct (startCamera_ui env (Scan.retake w) Hvid) as [_ Hst'].
    rewrite Hst' in Hst. clear Hst'.
    assert (filter is_getUserMedia (new_events w w') = [EvGetUserMedia]) as Hev.
    { unfold w', Scan.step, Scan.render, new_events. cbn [Scan.handler].
      unfold Scan.scanAnother, Scan.startCamera, try_catch, try_catch_finally,
        Scan.startCamera_try, bind, Scan.acquire, Scan.set_srcObject, Scan.retake.
      destruct (getUserMedia env); cbn; rewrite ?Hvid; cbn;
        case_decide; cbn; unfold Scan.stream_cleanup, Scan.stop_stream;
        try destruct (Scan.effect_stream (ui w)); cbn;
        rewrite <- ?app_assoc, drop_app_length; done. }
    rewrite Hst. unfold Scan.panels.
    destruct (getUserMedia env); cbn; rewrite ?Hc; done.
Qed.
(** ** Streams the page has lost *)

(** What a handler does to a stream the state does not hold: nothing. The
    stream the state holds afterwards is the one it held, none, or one the
    device has just handed out. *)
Lemma handler_unheld env a (w : World Scan.Comp) i :
  (i < length (camera w))%nat ->
  Scan.stream (Scan.state (ui w)) <> Some i ->
  let h := Scan.handler env a w in
  Scan.effect_stream (ui h) = Scan.effect_stream (ui w) /\
  Scan.stream (Scan.state (ui h)) <> Some i /\
  is_active (camera h) i = is_active (camera w) i /\
  (length (camera w) <= length (camera h))%nat.
Proof.
  intros Hi Hs. cbn zeta.
  assert (forall w' : World Scan.Comp,
            (i < length (camera w'))%nat ->
            Scan.stream (Scan.state (ui w')) <> Some i ->
            Scan.effect_stream (ui (Scan.startCamera env w')) = Scan.effect_stream (ui w') /\
            Scan.stream (Scan.state (ui (Scan.startCamera env w'))) <> Some i /\
            is_active (camera (Scan.startCamera env w')) i = is_active (camera w') i /\
            (length (camera w') <= length (camera (Scan.startCamera env w')))%nat) as Hstart.
  { intros w' Hi' Hs'.
    unfold Scan.startCamera, try_catch, try_catch_finally, Scan.startCamera_try,
      bind, Scan.acquire.
    destruct (getUserMedia env) as [e|n]; cbn; [done|].
    unfold Scan.set_srcObject; cbn.
    destruct (Scan.videoRef (ui w')); cbn; rewrite is_active_app, decide_True by done;
      rewrite length_app; cbn; (split; [done|]); (split; [|split; [done|lia]]);
      intros [= Heq]; lia. }
  assert (forall w' : World Scan.Comp,
            Scan.stream (Scan.state (ui w')) <> Some i ->
            Scan.effect_stream (ui (Scan.stopCamera w')) = Scan.effect_stream (ui w') /\
            Scan.stream (Scan.state (ui (Scan.stopCamera w'))) <> Some i /\
            is_active (camera (Scan.stopCamera w')) i = is_active (camera w') i /\
            (length (camera w') <= length (camera (Scan.stopCamera w')))%nat) as Hstop.
  { intros w' Hs'. unfold Scan.stopCamera.
    destruct (Scan.stream (Scan.state (ui w'))) as [sid|] eqn:Hsid; cbn;
      rewrite ?Hsid; [|done].
    rewrite is_active_alter_stop, decide_False by congruence.
    by rewrite length_alter. }
  destruct a; cbn [Scan.handler].
  - by apply Hstart.
  - unfold Scan.captureImage.
    destruct (Scan.videoRef (ui w)), (Scan.canvasRef (ui w)), (canvas_context env);
      try done.
    by apply (Hstop (set_ui (Scan.set_state
                (Scan.setCapturedImage (Some (canvas_toDataURL env)))) w)).
  - by apply Hstop.
  - change (Scan.analyzeImage env w) with (analyze ScanPage env w).
    analyze_split ScanPage env w;
      unfold analyze, set_analyzing, set_result, page_state in *;
      rewrite ?Hw, ?Hui, ?Hcam; cbn; done.
  - done.
  - unfold Scan.scanAnother. by apply (Hstart (Scan.retake w)).
Qed.

(** What a render does to a stream that neither the state nor the stream
    effect holds: nothing. *)
Lemma render_unheld (h : World Scan.Comp) i :
  Scan.stream (Scan.state (ui h)) <> Some i ->
  Scan.effect_stream (ui h) <> Some i ->
  Scan.stream (Scan.state (ui (Scan.render h))) <> Some i /\
  Scan.effect_stream (ui (Scan.render h)) <> Some i /\
  is_active (camera (Scan.render h)) i = is_active (camera h) i /\
  length (camera (Scan.render h)) = length (camera h).
Proof.
  intros Hs He. unfold Scan.render. case_decide as Heq; cbn; [done|].
  destruct (Scan.effect_stream (ui h)) as [sid|]; cbn; [|done].
  rewrite is_active_alter_stop, decide_False by congruence.
  by rewrite length_alter.
Qed.

Lemma step_unheld env a (w : World Scan.Comp) i :
  (i < length (camera w))%nat ->
  Scan.stream (Scan.state (ui w)) <> Some i ->
  Scan.effect_stream (ui w) <> Some i ->
  let w' := Scan.step env a w in
  (i < length (camera w'))%nat /\
  Scan.stream (Scan.state (ui w')) <> Some i /\
  Scan.effect_stream (ui w') <> Some i /\
  is_active (camera w') i = is_active (camera w) i.
Proof.
  intros Hi Hs He. cbn zeta. unfold Scan.step.
  destruct (handler_unheld env a w i Hi Hs) as (He' & Hs' & Ha' & Hl').
  rewrite <- He' in He.
  destruct (render_unheld (Scan.handler env a w) i Hs' He) as (? & ? & -> & ->).
  split; [lia|done].
Qed.

Lemma startCamera_granted env (w : World Scan.Comp) n :
  getUserMedia env = inr n ->
  let h := Scan.startCamera env w in
  Scan.stream (Scan.state (ui h)) = Some (length (camera w)) /\
  Scan.effect_stream (ui h) = Scan.effect_stream (ui w) /\
  camera h = camera w ++ [replicate n (mkTrack false 0)].
Proof.
  intros Hn. cbn zeta.
  unfold Scan.startCamera, try_catch, try_catch_finally, Scan.startCamera_try,
    bind, Scan.acquire. rewrite Hn. cbn.
  unfold Scan.set_srcObject; cbn. by destruct (Scan.videoRef (ui w)).
Qed.

Lemma render_new_stream (h : World Scan.Comp) :
  Scan.stream (Scan.state (ui h)) <> Scan.effect_stream (ui h) ->
  Scan.stream (Scan.state (ui (Scan.render h))) = Scan.stream (Scan.state (ui h)) /\
  Scan.effect_stream (ui (Scan.render h)) = Scan.stream (Scan.state (ui h)) /\
  camera (Scan.render h) = camera (Scan.stream_cleanup (Scan.effect_stream (ui h)) h).
Proof. intros Hne. unfold Scan.render. by rewrite decide_False. Qed.

(** X20. A stream of the device that neither the state of the page nor its
    stream effect holds is never stopped: it stays as it is, and held by
    neither, through every sequence of actions of the page and through its
    unmounting. Such a stream is there once two granted calls of
    [startCamera] have settled with no render between them: when the page
    renders, it holds the stream of the second call and nothing holds the
    stream of the first, which is still active. *)
Theorem unheld_stream_is_never_stopped :
  (forall trace (w : World Scan.Comp) i,
      is_active (camera w) i = true ->
      Scan.stream (Scan.state (ui w)) <> Some i ->
      Scan.effect_stream (ui w) <> Some i ->
      let w' := Scan.run trace w in
      is_active (camera w') i = true /\
      Scan.stream (Scan.state (ui w')) <> Some i /\
      Scan.effect_stream (ui w') <> Some i /\
      is_active (camera (Scan.unmount w')) i = true) /\
  (forall trace u env1 env2 n1 n2,
      getUserMedia env1 = inr (S n1) -> getUserMedia env2 = inr n2 ->
      let w := Scan.run trace (Scan.initial u) in
      let w' := Scan.render (Scan.startCamera env2 (Scan.startCamera env1 w)) in
      let i := length (camera w) in
      Scan.stream (Scan.state (ui w')) = Some (S i) /\
      Scan.effect_stream (ui w') = Some (S i) /\
      is_active (camera w') i = true).
Proof.
  split.
  - intros trace. induction trace as [|[env a] trace IH]; intros w i Ha Hs He.
    + cbn [Scan.run]. cbn zeta. split; [done|]. split; [done|]. split; [done|].
      unfold Scan.unmount. destruct (Scan.effect_stream (ui w)) as [sid|]; cbn; [|done].
      rewrite is_active_alter_stop, decide_False by congruence. done.
    + cbn [Scan.run].
      destruct (step_unheld env a w i (is_active_lt _ _ Ha) Hs He) as (_ & Hs' & He' & Ha').
      apply IH; [by rewrite Ha'|done|done].
  - intros trace u env1 env2 n1 n2 H1 H2 w w' i.
    pose proof (run_at_rest trace _ (initial_at_rest u)) as (He & _ & Hlt & _).
    fold w in He, Hlt.
    destruct (startCamera_granted env1 w _ H1) as (Hs1 & He1 & Hc1).
    destruct (startCamera_granted env2 (Scan.startCamera env1 w) _ H2) as (Hs2 & He2 & Hc2).
    rewrite He1 in He2. rewrite Hc1 in Hc2. rewrite Hc1, length_app in Hs2. cbn in Hs2.
    fold i in Hs2. replace (i + 1)%nat with (S i) in Hs2 by lia.
    assert (forall j, Scan.effect_stream (ui w) = Some j -> (j < i)%nat) as Hj.
    { intros j Hj. rewrite He in Hj. by apply Hlt. }
    destruct (render_new_stream (Scan.startCamera env2 (Scan.startCamera env1 w)))
      as (Hr1 & Hr2 & Hr3).
    { rewrite Hs2, He2. intros Heq. symmetry in Heq. apply Hj in Heq. lia. }
    fold w' in Hr1, Hr2, Hr3. rewrite Hs2 in Hr1, Hr2.
    split; [done|]. split; [done|]. rewrite Hr3, He2.
    assert (is_active ((camera w ++ [replicate (S n1) (mkTrack false 0)]) ++
                       [replicate n2 (mkTrack false 0)]) i = true) as Hact.
    { unfold is_active, i. rewrite <- app_assoc. cbn [app].
      by rewrite list_lookup_middle. }
    destruct (Scan.effect_stream (ui w)) as [j|] eqn:Hej; cbn; rewrite Hc2; [|done].
    rewrite is_active_alter_stop, decide_False; [done|].
    specialize (Hj j eq_refl). lia.
Qed.

(** ** Calls that overlap *)

Lemma finish_abind {C A B} (t : Async C A) (f : A -> Async C B) (w : World C) :
  finish (abind t f) w =
  match finish t w with
  | (inl e, w') => (inl e, w')
  | (inr a, w') => finish (f a) w'
  end.
Proof.
  revert w. induction t as [[e|a]|X m k IH|X m k IH]; intros w; cbn; try done;
    destruct (m w) as [[e|x] w']; done.
Qed.

Lemma finish_atry_catch_finally {C} (body : Async C unit) handler fin (w : World C) :
  finish (atry_catch_finally body handler fin) w =
  (inr tt, try_catch_finally (finish body) handler fin w).
Proof.
  unfold try_catch_finally.
  revert w. induction body as [[e|[]]|X m k IH|X m k IH]; intros w; cbn; try done;
    unfold caught; destruct (m w) as [[e|x] w']; cbn; done.
Qed.

Lemma finish_now_exec {C} (f : World C -> World C) (w : World C) :
  finish (now (exec f)) w = (inr tt, f w).
Proof. reflexivity. Qed.

(** Left to run with nothing in between, a call with its [await]s is the
    handler that runs to completion. *)
Lemma finish_startCamera_async env (w : World Scan.Comp) :
  finish (Scan.startCamera_async env) w = (inr tt, Scan.startCamera env w).
Proof.
  unfold Scan.startCamera_async. rewrite finish_atry_catch_finally.
  unfold Scan.startCamera, try_catch, try_catch_finally, Scan.startCamera_try, bind.
  cbn. by destruct (Scan.acquire env w) as [[e|sid] w'].
Qed.

Lemma finish_analyzeImage_try_async env image u (w : World Scan.Comp) :
  finish (Scan.analyzeImage_try_async env image u) w = Scan.analyzeImage_try env image u w.
Proof.
  unfold Scan.analyzeImage_try_async, Scan.analyzeImage_try, bind,
    Scan.fetch_image, upload, getPublicUrl, invoke, insert_scan, scan_row.
  cbn. destruct (fetch_blob env image) as [e|blob]; cbn; [done|].
  destruct (storage_upload env (Scan.fileName env u) blob); cbn; [done|].
  destruct (inv_error (functions_invoke env (storage_publicUrl env (Scan.fileName env u))));
    cbn; [done|].
  destruct (inv_data (functions_invoke env (storage_publicUrl env (Scan.fileName env u))));
    cbn; [|done].
  destruct (db_insert env _); cbn; done.
Qed.

Lemma finish_analyzeImage_async env (w : World Scan.Comp) :
  finish (Scan.analyzeImage_async env (Scan.state (ui w))) w =
  (inr tt, Scan.analyzeImage env w).
Proof.
  unfold Scan.analyzeImage_async, Scan.analyzeImage.
  destruct (Scan.capturedImage (Scan.state (ui w))) as [image|]; [|done].
  destruct (Scan.user (Scan.state (ui w))) as [u|]; [|done].
  destruct (truthy_string (Some image)); [|done].
  rewrite finish_abind, finish_now_exec, finish_atry_catch_finally.
  unfold try_catch_finally. by rewrite finish_analyzeImage_try_async.
Qed.

Lemma finish_call env a (w : World Scan.Comp) :
  finish (Scan.call env a (Scan.state (ui w))) w = (inr tt, Scan.handler env a w).
Proof.
  destruct a; cbn [Scan.call Scan.handler]; try done.
  - apply finish_startCamera_async.
  - apply finish_analyzeImage_async.
  - rewrite finish_abind, finish_now_exec. apply finish_startCamera_async.
Qed.

Lemma finish_deleteScan_async seen env scanId imageUrl (w : World History.State) :
  finish (History.deleteScan_async seen env scanId imageUrl) w =
  (inr tt, History.deleteScan_of seen env scanId imageUrl w).
Proof.
  unfold History.deleteScan_async. rewrite finish_atry_catch_finally.
  unfold History.deleteScan_of, try_catch, try_catch_finally,
    History.deleteScan_try_of, bind, remove, delete_scan.
  destruct (History.removed_path imageUrl) as [path|]; cbn;
    [destruct (storage_remove env [path]); cbn|];
    destruct (db_delete env scanId); reflexivity.
Qed.

(** X21. The camera page does not wait for a call to settle before it lets
    the user go on, so it can come to show the video block and the result
    block together: capturing, holding an active stream, with a result.
    From any such page Scan Another Plant is offered. When the device
    grants it, the call gets a second stream while the first is active,
    finds the video element mounted and sets its [srcObject] to the new
    stream; the render that follows stops the first stream. When the device
    refuses, the page stays on the video block with its stream. *)
Theorem scan_another_while_capturing (l : Live Scan.Comp) env i v d :
  let w := page l in
  Scan.capturing (Scan.state (ui w)) = true ->
  Scan.stream (Scan.state (ui w)) = Some i ->
  Scan.effect_stream (ui w) = Some i ->
  is_active (camera w) i = true ->
  Scan.videoRef (ui w) = Some v ->
  Scan.result (Scan.state (ui w)) = Some d ->
  Scan.panels (Scan.state (ui w)) = [Scan.VideoPanel; Scan.ResultPanel] /\
  Scan.offered Scan.ScanAnotherPlant (Scan.state (ui w)) = true /\
  let l' := Scan.move (Scan.Press env Scan.ScanAnotherPlant) l in
  exists t,
    calls l' !! length (calls l) = Some t /\
    let h := (advance t (page l')).2 in
    match getUserMedia env with
    | inr n =>
        let j := length (camera w) in
        Scan.stream (Scan.state (ui h)) = Some j /\
        camera h = camera w ++ [replicate n (mkTrack false 0)] /\
        is_active (camera h) i = true /\
        Scan.videoRef (ui h) = Some (Some j) /\
        is_active (camera (Scan.render h)) i = false /\
        Scan.panels (Scan.state (ui (Scan.render h))) = [Scan.VideoPanel]
    | inl _ =>
        Scan.stream (Scan.state (ui h)) = Some i /\
        camera h = camera w /\
        Scan.panels (Scan.state (ui (Scan.render h))) = [Scan.VideoPanel]
    end.
Proof.
  destruct l as [[[[u s c an img r] vr cr es] sto rows cam lg] cl].
  cbn [page ui camera Scan.state Scan.capturing Scan.stream Scan.effect_stream
       Scan.videoRef Scan.result].
  intros -> -> -> Ha -> ->.
  split; [unfold Scan.panels; cbn; by destruct (truthy_string img)|].
  split; [done|].
  pose proof (is_active_lt _ _ Ha) as Hi.
  unfold Scan.move, press. cbn [Scan.call page calls ui Scan.state].
  unfold Scan.startCamera_async.
  cbn [abind await now atry_catch_finally advance].
  unfold caught, Scan.acquire, exec, Scan.retake.
  destruct (getUserMedia env) as [e|n]; cbn.
  - eexists. split; [by apply list_lookup_middle|].
    unfold Scan.render; cbn. rewrite decide_True by done. cbn.
    rewrite decide_True by done. done.
  - eexists. split; [by apply list_lookup_middle|].
    unfold Scan.render; cbn. rewrite decide_True by done. cbn.
    rewrite decide_False by (intros [= Heq]; lia). cbn.
    split; [done|]. split; [done|]. split.
    { rewrite is_active_app. by rewrite decide_True. }
    split; [done|]. split; [|done].
    rewrite is_active_alter_stop. by rewrite decide_True.
Qed.

(** The three stretches of a call of [deleteScan] that has an image to
    remove and whose deletion the table accepts. *)
Lemma deleteScan_async_stretches seen env scanId imageUrl p :
  History.removed_path imageUrl = Some p ->
  db_delete env scanId = None ->
  exists t1 t2 : Async History.State unit,
    (forall w, advance (History.deleteScan_async seen env scanId imageUrl) w =
               (t1, (remove env [p] w).2)) /\
    (forall w, advance t1 w = (t2, (delete_scan env scanId w).2)) /\
    (forall w, advance t2 w =
               (Finished (inr tt),
                emit (EvToastSuccess "Scan deleted")
                  (set_ui (History.setScans
                             (filter (fun scan => row_id scan <> scanId) seen)) w))).
Proof.
  intros Hp Hd. unfold History.deleteScan_async. rewrite Hp.
  cbn [abind await now atry_catch_finally].
  unfold caught, remove, delete_scan. rewrite Hd.
  destruct (storage_remove env [p]); do 2 eexists;
    (split; [intros w; cbn [advance]; reflexivity|]);
    (split; [intros w; cbn [advance]; reflexivity|]);
    intros w; reflexivity.
Qed.

Lemma remove_world {C} env paths (w : World C) :
  ui (remove env paths w).2 = ui w /\
  plant_scans (remove env paths w).2 = plant_scans w /\
  log (remove env paths w).2 = log w ++ [EvRemove paths].
Proof. unfold remove. by destruct (storage_remove env paths). Qed.

Lemma delete_scan_world {C} env scanId (w : World C) :
  db_delete env scanId = None ->
  ui (delete_scan env scanId w).2 = ui w /\
  plant_scans (delete_scan env scanId w).2 =
    filter (fun r => row_id r <> scanId) (plant_scans w) /\
  log (delete_scan env scanId w).2 = log w ++ [EvDelete scanId].
Proof. intros Hd. unfold delete_scan. by rewrite Hd. Qed.

(** X22. The history page does not wait for a deletion to settle before it
    lets the user start another: the Delete buttons stay enabled. When two
    deletions that both have an image to remove are started from one render
    of the list and the table accepts both, the one that settles last sets
    the list from the list of that render without its own scan only: every
    scan with the key of the other is listed again, although its row is no
    longer in the table. *)
Theorem two_deletions_in_flight (w : World History.State)
    env1 env2 id1 id2 url1 url2 p1 p2 :
  History.removed_path url1 = Some p1 ->
  History.removed_path url2 = Some p2 ->
  db_delete env1 id1 = None ->
  db_delete env2 id2 = None ->
  let l := History.moves
             [History.PressDelete env1 id1 url1; History.PressDelete env2 id2 url2;
              History.Settle 0; History.Settle 0; History.Settle 1; History.Settle 1]
             (mkLive w []) in
  map waiting (calls l) = [false; false] /\
  History.scans (ui (page l)) =
    filter (fun r => row_id r <> id2) (History.scans (ui w)) /\
  plant_scans (page l) =
    filter (fun r => row_id r <> id2) (filter (fun r => row_id r <> id1) (plant_scans w)) /\
  filter is_delete (new_events w (page l)) = [EvDelete id1; EvDelete id2] /\
  (id1 <> id2 ->
   forall r, r ∈ History.scans (ui w) -> row_id r = id1 ->
             r ∈ History.scans (ui (page l)) /\ r ∉ plant_scans (page l)).
Proof.
  intros Hp1 Hp2 Hd1 Hd2.
  destruct (deleteScan_async_stretches (History.scans (ui w)) env1 id1 url1 p1 Hp1 Hd1)
    as (a1 & a2 & Ha0 & Ha1 & Ha2).
  destruct (deleteScan_async_stretches (History.scans (ui w)) env2 id2 url2 p2 Hp2 Hd2)
    as (b1 & b2 & Hb0 & Hb1 & Hb2).
  set (w1 := (remove env1 [p1] w).2).
  set (w2 := (remove env2 [p2] w1).2).
  set (w3 := (delete_scan env1 id1 w2).2).
  set (w4 := emit (EvToastSuccess "Scan deleted")
               (set_ui (History.setScans
                          (filter (fun scan => row_id scan <> id1) (History.scans (ui w))))
                  w3)).
  set (w5 := (delete_scan env2 id2 w4).2).
  set (w6 := emit (EvToastSuccess "Scan deleted")
               (set_ui (History.setScans
                          (filter (fun scan => row_id scan <> id2) (History.scans (ui w))))
                  w5)).
  assert (History.moves
            [History.PressDelete env1 id1 url1; History.PressDelete env2 id2 url2;
             History.Settle 0; History.Settle 0; History.Settle 1; History.Settle 1]
            (mkLive w []) = mkLive w6 [Finished (inr tt); Finished (inr tt)]) as ->.
  { destruct (remove_world env1 [p1] w) as (Hu1 & _). fold w1 in Hu1.
    assert (History.move (History.PressDelete env1 id1 url1) (mkLive w []) =
            mkLive w1 [a1]) as H1.
    { unfold History.move, press. cbn [page calls]. by rewrite Ha0. }
    assert (History.move (History.PressDelete env2 id2 url2) (mkLive w1 [a1]) =
            mkLive w2 [a1; b1]) as H2.
    { unfold History.move, press. cbn [page calls]. by rewrite Hu1, Hb0. }
    assert (History.move (History.Settle 0) (mkLive w2 [a1; b1]) =
            mkLive w3 [a2; b1]) as H3.
    { unfold History.move, settle. cbn [page calls]. cbn. by rewrite Ha1. }
    assert (History.move (History.Settle 0) (mkLive w3 [a2; b1]) =
            mkLive w4 [Finished (inr tt); b1]) as H4.
    { unfold History.move, settle. cbn [page calls]. cbn. by rewrite Ha2. }
    assert (History.move (History.Settle 1) (mkLive w4 [Finished (inr tt); b1]) =
            mkLive w5 [Finished (inr tt); b2]) as H5.
    { unfold History.move, settle. cbn [page calls]. cbn. by rewrite Hb1. }
    assert (History.move (History.Settle 1) (mkLive w5 [Finished (inr tt); b2]) =
            mkLive w6 [Finished (inr tt); Finished (inr tt)]) as H6.
    { unfold History.move, settle. cbn [page calls]. cbn. by rewrite Hb2. }
    unfold History.moves. cbn [foldl]. by rewrite H1, H2, H3, H4, H5, H6. }
  cbn zeta. cbn [page calls].
  destruct (remove_world env1 [p1] w) as (Hu1 & Ht1 & Hl1). fold w1 in Hu1, Ht1, Hl1.
  destruct (remove_world env2 [p2] w1) as (Hu2 & Ht2 & Hl2). fold w2 in Hu2, Ht2, Hl2.
  destruct (delete_scan_world env1 id1 w2 Hd1) as (Hu3 & Ht3 & Hl3).
  fold w3 in Hu3, Ht3, Hl3.
  destruct (delete_scan_world env2 id2 w4 Hd2) as (Hu5 & Ht5 & Hl5).
  fold w5 in Hu5, Ht5, Hl5.
  assert (History.scans (ui w6) =
            filter (fun r => row_id r <> id2) (History.scans (ui w))) as Hl by done.
  assert (plant_scans w6 =
            filter (fun r => row_id r <> id2)
              (filter (fun r => row_id r <> id1) (plant_scans w))) as Ht.
  { unfold w6, w4. cbn [plant_scans emit set_ui]. rewrite Ht5. unfold w4.
    cbn [plant_scans emit set_ui]. by rewrite Ht3, Ht2, Ht1. }
  assert (log w6 = log w ++ [EvRemove [p1]; EvRemove [p2]; EvDelete id1;
                             EvToastSuccess "Scan deleted"; EvDelete id2;
                             EvToastSuccess "Scan deleted"]) as Hlog.
  { unfold w6. cbn [log emit set_ui]. rewrite Hl5. unfold w4.
    cbn [log emit set_ui]. rewrite Hl3, Hl2, Hl1. by rewrite <- !app_assoc. }
  split; [done|]. split; [done|]. split; [done|]. split.
  - unfold new_events. by rewrite Hlog, drop_app_length.
  - intros Hne r Hr Hid. rewrite Hl, Ht. split.
    + apply list_elem_of_filter. split; [congruence|done].
    + rewrite !list_elem_of_filter. intros (_ & Hn & _). done.
Qed.

(** ** Concrete calls *)

Import Examples.

(** C2 at the spec's scenario: user [u1] analyses [leaf.jpg]. *)
Lemma successful_call_witness :
  let w' := Upload.handleAnalyze all_ok upload_page in
  filter is_upload (new_events upload_page w') = [EvUpload leaf_path (bytes leaf_jpg)] /\
  storage w' = <[leaf_path := bytes leaf_jpg]> ∅ /\
  filter is_insert (new_events upload_page w') = [EvInsert (columns leaf_row)] /\
  plant_scans w' = [] ++ [leaf_row].
Proof.
  exact (proj1 successful_call_creates_one_image_and_one_record
           all_ok upload_page leaf_jpg u1 "leaf" "jpg" blight
           eq_refl eq_refl eq_refl eq_refl eq_refl eq_refl eq_refl).
Defined.

(** No reading of what a call leaves on the page (its state and what it
    showed) tells which stage failed. *)
Lemma failure_kind_not_recoverable :
  ~ exists kind : Upload.State * list Event -> Stage,
      forall env (w : World Upload.State) u path body stage e,
        entered UploadPage env w = Some (u, path, body) ->
        failure env u path body = Some (stage, e) ->
        kind (ui (analyze UploadPage env w),
              filter is_feedback (new_events w (analyze UploadPage env w))) = stage.
Proof.
  intros [kind Hkind].
  pose proof (Hkind upload_fails upload_page u1 leaf_path (bytes leaf_jpg)
                UploadStage failed_to_fetch eq_refl eq_refl) as H1.
  pose proof (Hkind persist_fails upload_page u1 leaf_path (bytes leaf_jpg)
                PersistStage failed_to_fetch eq_refl eq_refl) as H2.
  vm_compute in H1, H2. congruence.
Qed.

(** C3, as stated, fails: a refused upload and a refused insert, both with
    the message "Failed to fetch", leave the page and what it showed
    identical, so the caller cannot tell the one from the other. *)
Lemma upload_and_persist_failure_look_alike :
  let w_up := analyze UploadPage upload_fails upload_page in
  let w_db := analyze UploadPage persist_fails upload_page in
  entered UploadPage upload_fails upload_page = Some (u1, leaf_path, bytes leaf_jpg) /\
  entered UploadPage persist_fails upload_page = Some (u1, leaf_path, bytes leaf_jpg) /\
  failure upload_fails u1 leaf_path (bytes leaf_jpg) = Some (UploadStage, failed_to_fetch) /\
  failure persist_fails u1 leaf_path (bytes leaf_jpg) = Some (PersistStage, failed_to_fetch) /\
  ui w_up = ui w_db /\
  filter is_feedback (new_events upload_page w_up) =
  filter is_feedback (new_events upload_page w_db).
Proof. vm_compute. repeat split. Qed.

(** C3 (amended) at a refused insert. *)
Lemma failure_reported_witness :
  let w' := analyze UploadPage persist_fails upload_page in
  filter is_feedback (new_events upload_page w') = catch_events failed_to_fetch /\
  filter is_toast_success (new_events upload_page w') = [] /\
  Upload.result (ui w') = None /\
  Upload.analyzing (ui w') = false.
Proof.
  exact (failure_reported_without_its_stage UploadPage persist_fails upload_page
           u1 leaf_path (bytes leaf_jpg) PersistStage failed_to_fetch eq_refl eq_refl).
Defined.

(** C4 at a failing edge function. *)
Lemma upload_kept_witness :
  let w' := analyze UploadPage analysis_fails upload_page in
  storage w' = <[leaf_path := bytes leaf_jpg]> ∅ /\
  storage w' !! leaf_path = Some (bytes leaf_jpg) /\
  filter is_remove (new_events upload_page w') = [].
Proof.
  exact (upload_kept_when_analysis_fails UploadPage analysis_fails upload_page
           u1 leaf_path (bytes leaf_jpg) failed_to_fetch eq_refl eq_refl).
Defined.

(** C7, as stated, fails: a call without a selected file reports nothing,
    neither an error toast nor a console line, and changes nothing. *)
Lemma missing_image_not_reported :
  accepted UploadPage upload_page_no_file = false /\
  analyze UploadPage all_ok upload_page_no_file = upload_page_no_file /\
  filter is_feedback
    (new_events upload_page_no_file (analyze UploadPage all_ok upload_page_no_file)) = [].
Proof. vm_compute. repeat split. Qed.

(** C7 (amended) at a call without a selected file. *)
Lemma guard_returns_silently_witness :
  analyze UploadPage all_ok upload_page_no_file = upload_page_no_file.
Proof.
  exact (guard_returns_silently UploadPage all_ok upload_page_no_file eq_refl).
Defined.

(** C8, as stated, fails: a confidence of 1.5 is stored as 1.5 and shown
    as 150 percent. *)
Lemma confidence_outside_unit_interval :
  let w' := analyze UploadPage answers_overconfident upload_page in
  map (fun r => confidence_score (columns r)) (plant_scans w') = [Some (3 # 2)] /\
  in_unit_interval (3 # 2) = false /\
  rendered_confidence UploadPage (ui w') = RenderPercent 150 /\
  map History.render_scan_confidence (plant_scans w') = [RenderPercent 150].
Proof. vm_compute. repeat split. Qed.

(** C8 (amended) at a confidence of 1.5. *)
Lemma confidence_stored_witness :
  let w' := analyze UploadPage answers_overconfident upload_page in
  (exists r, plant_scans w' = [] ++ [r] /\
             confidence_score (columns r) = Some (3 # 2) /\
             History.render_scan_confidence r = render_confidence (Some (3 # 2))) /\
  Upload.result (ui w') = Some overconfident /\
  Upload.render_result_confidence (ui w') = render_confidence (Some (3 # 2)).
Proof.
  exact (confidence_stored_as_received UploadPage answers_overconfident upload_page
           u1 leaf_path (bytes leaf_jpg) overconfident eq_refl eq_refl eq_refl).
Defined.

(** C9, as stated, fails: when the bucket removes the image and the table
    then refuses the deletion, the row is still there and its image is
    gone. *)
Lemma record_outlives_image_when_delete_fails :
  let w' := History.deleteScan delete_fails "scan-1" (public leaf_path) history_page in
  ~ outlives_image history_page leaf_row /\ outlives_image w' leaf_row.
Proof.
  cbn zeta. split.
  - intros [_ (path & Hp & Hs)]. vm_compute in Hp. injection Hp as <-. by vm_compute in Hs.
  - split.
    + vm_compute. apply list_elem_of_here.
    + exists leaf_path. split; by vm_compute.
Qed.

(** C5, as stated, fails: Start Camera on a page that is capturing asks
    the device again, and both streams are active when the handler
    returns. *)
Lemma second_acquisition_while_capturing :
  let w := Scan.startCamera all_ok camera_page in
  Scan.capturing (Scan.state (ui camera_page)) = true /\
  active_streams (camera camera_page) = [0%nat] /\
  filter is_getUserMedia (new_events camera_page w) = [EvGetUserMedia] /\
  active_streams (camera w) = [0%nat; 1%nat].
Proof. vm_compute. repeat split. Qed.

(** C6, as stated, fails: Cancel on a capturing page stops the track of its
    stream twice. *)
Lemma track_stopped_twice_on_cancel :
  camera camera_page = [[mkTrack false 0]] /\
  camera (Scan.step all_ok Scan.Cancel camera_page) = [[mkTrack true 2]].
Proof. vm_compute. repeat split. Qed.

(** C6 (amended) on the page after Start Camera. *)
Lemma leaving_capturing_witness :
  exists sid tracks,
    Scan.stream (Scan.state (ui camera_page)) = Some sid /\
    camera camera_page !! sid = Some tracks /\
    (forall env,
        let w' := Scan.step env Scan.Cancel camera_page in
        Scan.capturing (Scan.state (ui w')) = false /\
        Scan.stream (Scan.state (ui w')) = None /\
        camera w' =
          <[sid := map (fun t => mkTrack true (2 + stop_calls t)) tracks]>
            (camera camera_page) /\
        active_streams (camera w') = []) /\
    (forall env,
        canvas_context env = true ->
        let w' := Scan.step env Scan.CapturePhoto camera_page in
        Scan.capturing (Scan.state (ui w')) = false /\
        Scan.stream (Scan.state (ui w')) = None /\
        Scan.capturedImage (Scan.state (ui w')) = Some (canvas_toDataURL env) /\
        camera w' =
          <[sid := map (fun t => mkTrack true (2 + stop_calls t)) tracks]>
            (camera camera_page) /\
        active_streams (camera w') = []) /\
    (let w' := Scan.unmount camera_page in
     camera w' =
       <[sid := map (fun t => mkTrack true (1 + stop_calls t)) tracks]>
         (camera camera_page) /\
     active_streams (camera w') = []).
Proof.
  exact (leaving_capturing_stops_the_stream [(all_ok, Scan.StartCamera)] (Some u1)
           eq_refl).
Defined.

(** X3 at the address of the scan of [leaf.jpg]. *)
Lemma filePath_inverts_address_witness :
  History.filePath (public leaf_path) = Some leaf_path /\
  History.removed_path (public leaf_path) = Some leaf_path.
Proof.
  exact (filePath_inverts_address public_base leaf_path eq_refl).
Defined.

(** X5 at a refused insert. *)
Lemma failure_stops_the_protocol_witness :
  let w' := analyze UploadPage persist_fails upload_page in
  filter is_upload (new_events upload_page w') = [EvUpload leaf_path (bytes leaf_jpg)] /\
  plant_scans w' = [] /\
  storage w' = <[leaf_path := bytes leaf_jpg]> ∅ /\
  filter is_invoke (new_events upload_page w') = [EvInvoke (public leaf_path)] /\
  exists d, Some blight = Some d /\
            filter is_insert (new_events upload_page w') =
              [EvInsert (row_of persist_fails u1 leaf_path d)].
Proof.
  exact (failure_stops_the_protocol UploadPage persist_fails upload_page
           u1 leaf_path (bytes leaf_jpg) PersistStage failed_to_fetch eq_refl eq_refl).
Defined.

(** X7 at the scan of [leaf.jpg], deleted right after it was made. *)
Lemma analyze_then_delete_witness :
  let w1 := analyze UploadPage all_ok upload_page in
  let w2 := History.deleteScan all_ok "scan-1" (public leaf_path)
              (on_history_page History.initial_state w1) in
  plant_scans w1 = [] ++ [leaf_row] /\ storage w2 = ∅ /\ plant_scans w2 = [].
Proof.
  exact (analyze_then_delete_restores UploadPage all_ok all_ok upload_page
           u1 leaf_path (bytes leaf_jpg) blight public_base History.initial_state
           eq_refl eq_refl eq_refl eq_refl eq_refl eq_refl (Forall_nil_2 _)
           eq_refl eq_refl).
Defined.

(** X8 at a successful analysis of [leaf.jpg]. *)
Lemma upload_page_after_analyze_witness :
  let s' := ui (Upload.handleAnalyze all_ok upload_page) in
  (Upload.view_analyze (Upload.view s') = None /\
   exists d,
     Some blight = Some d /\
     Upload.view_result (Upload.view s') =
       Some (Upload.mkResultCard (or_string (disease d) "No disease detected")
               (diagnosis d) (recommendations d) (render_confidence (confidence d)))) /\
  (forall f2 url,
      let s2 := Upload.handleFileSelect (Some f2) url s' in
      Upload.view_analyze (Upload.view s2) = Some (false, "Analyze Plant") /\
      Upload.view_result (Upload.view s2) = None /\
      Upload.selectedFile s2 = Some f2) /\
  Upload.handleFileSelect None "" s' = s' /\
  Upload.view (Upload.analyzeAnother s') = Upload.mkView None None None.
Proof.
  exact (upload_page_after_analyze all_ok upload_page leaf_jpg u1
           eq_refl eq_refl eq_refl).
Defined.

(** X9 on the history page that lists the scan of [leaf.jpg], for the
    handler of its render. *)
Lemma deleteScan_keeps_list_witness :
  let w' := History.deleteScan_of [leaf_row] all_ok "scan-1" (public leaf_path)
              history_page in
  History.scans (ui w') = [] /\
  w' = History.deleteScan all_ok "scan-1" (public leaf_path) history_page /\
  listed_in_table w'.
Proof.
  pose proof (deleteScan_keeps_list_in_table [leaf_row] all_ok "scan-1"
                (public leaf_path) history_page) as (Hl & Hc & Hin & _).
  split; [exact Hl|]. split; [exact Hc|].
  exact (Hin (fun r H => H) (fun r H => H)).
Defined.

(** X12 at the number nearest 0.285: the page shows 28, where the exact
    product, 28.5, would give 29. *)
Lemma percentage_within_range_witness :
  Double.render_confidence (Some near_0_285) = Double.ShownPercent (Some 28%Z) /\
  Math_round ((285 # 1000) * 100) = 29%Z /\
  ~ (Double.exact 5134103575202365 (-54) == 0)%Q /\
  exists z, Some 28%Z = Some z /\ (0 <= z <= 100)%Z.
Proof.
  split; [reflexivity|]. split; [reflexivity|].
  exact (percentage_within_range near_0_285 (Double.exact 5134103575202365 (-54))
           eq_refl ltac:(unfold Qle; cbn; lia) ltac:(unfold Qle; cbn; lia)).
Defined.

(** X13 after a photo was taken. *)
Lemma one_panel_witness :
  let w := Scan.run photo_taken (Scan.initial (Some u1)) in
  exists panel,
    Scan.panels (Scan.state (ui w)) = [panel] /\
    (panel = Scan.VideoPanel <-> is_Some (Scan.stream (Scan.state (ui w)))) /\
    (panel <> Scan.VideoPanel -> active_streams (camera w) = []).
Proof.
  exact (one_panel_at_a_time photo_taken (Some u1) eq_refl).
Defined.

(** X14 at Scan Another Plant after an analysis. *)
Lemma never_two_active_streams_witness :
  let w := Scan.run (photo_taken ++ [(all_ok, Scan.AnalyzePlant)]) (Scan.initial (Some u1)) in
  (Scan.ScanAnotherPlant = Scan.StartCamera \/
   Scan.ScanAnotherPlant = Scan.ScanAnotherPlant ->
   Scan.stream (Scan.state (ui w)) = None /\ active_streams (camera w) = []) /\
  (length (active_streams (camera (Scan.handler all_ok Scan.ScanAnotherPlant w))) <= 1)%nat.
Proof.
  exact (never_two_active_streams (photo_taken ++ [(all_ok, Scan.AnalyzePlant)])
           (Some u1) all_ok Scan.ScanAnotherPlant eq_refl eq_refl).
Defined.

(** X15 on the page after Start Camera. *)
Lemma video_never_given_witness :
  is_Some (Scan.stream (Scan.state (ui camera_page))) /\
  Scan.videoRef (ui camera_page) = Some None.
Proof.
  exact (video_never_given_the_stream [(all_ok, Scan.StartCamera)] (Some u1) eq_refl).
Defined.

(** X16 on the page as first mounted. *)
Lemma refused_camera_witness :
  let w := Scan.initial (Some u1) in
  let w' := Scan.step camera_refused Scan.StartCamera w in
  Scan.state (ui w') = Scan.state (ui w) /\
  camera w' = camera w /\
  new_events w w' = [EvGetUserMedia; EvToastError "Failed to access camera"] /\
  forall a, Scan.offered a (Scan.state (ui w')) = Scan.offered a (Scan.state (ui w)).
Proof.
  exact (refused_camera_changes_nothing [] (Some u1) camera_refused
           (mkError (Some "Permission denied")) eq_refl).
Defined.

(** X17 for the stream stopped by Cancel, when the camera is started
    again. *)
Lemma released_stream_witness :
  let w := Scan.step all_ok Scan.Cancel camera_page in
  let w' := Scan.run [(all_ok, Scan.StartCamera)] w in
  (length (camera w) <= length (camera w'))%nat /\
  is_active (camera w') 0 = false /\
  is_active (camera (Scan.unmount w')) 0 = false.
Proof.
  exact (released_stream_stays_released [(all_ok, Scan.StartCamera)]
           (Scan.step all_ok Scan.Cancel camera_page) 0%nat
           (le_n 1) eq_refl).
Defined.


(** X19 at Retake after a photo was taken. *)
Lemma ways_back_witness :
  let w := Scan.run photo_taken (Scan.initial (Some u1)) in
  let w' := Scan.step all_ok Scan.Retake w in
  Scan.capturedImage (Scan.state (ui w')) = None /\
  Scan.result (Scan.state (ui w')) = None /\
  Scan.panels (Scan.state (ui w')) = [Scan.StartPanel] /\
  camera w' = camera w /\ new_events w w' = [] /\
  active_streams (camera w') = [].
Proof.
  exact (proj1 (ways_back_to_the_camera photo_taken (Some u1) all_ok eq_refl) eq_refl).
Defined.

(** X20 on the page as first mounted, Start Camera granted twice before a
    render, then Cancel. *)
Lemma unheld_stream_witness :
  let w := Scan.render (Scan.startCamera all_ok_later
                          (Scan.startCamera all_ok (Scan.initial (Some u1)))) in
  let w' := Scan.run [(all_ok, Scan.Cancel)] w in
  (Scan.stream (Scan.state (ui w)) = Some 1%nat /\
   Scan.effect_stream (ui w) = Some 1%nat /\
   is_active (camera w) 0 = true) /\
  (is_active (camera w') 0 = true /\
   Scan.stream (Scan.state (ui w')) <> Some 0%nat /\
   Scan.effect_stream (ui w') <> Some 0%nat /\
   is_active (camera (Scan.unmount w')) 0 = true) /\
  active_streams (camera (Scan.unmount w')) = [0%nat].
Proof.
  split; [|split].
  - exact (proj2 unheld_stream_is_never_stopped [] (Some u1) all_ok all_ok_later
             0%nat 1%nat eq_refl eq_refl).
  - exact (proj1 unheld_stream_is_never_stopped [(all_ok, Scan.Cancel)]
             (Scan.render (Scan.startCamera all_ok_later
                             (Scan.startCamera all_ok (Scan.initial (Some u1)))))
             0%nat eq_refl ltac:(discriminate) ltac:(discriminate)).
  - reflexivity.
Defined.

(** X21 on the camera page after a photo was taken: Retake and Start
    Camera are offered and used while the analysis is pending, and the page
    comes to show the video block and the result block together; Scan
    Another Plant, granted, then has two streams active at once. *)
Lemma scan_another_while_capturing_witness :
  let start := mkLive (Scan.run photo_taken (Scan.initial (Some u1))) [] in
  let l := Scan.moves retake_while_analyzing start in
  (Scan.offered_moves retake_while_analyzing start = true /\
   map waiting (calls l) = [false; false; false] /\
   active_streams (camera (page l)) = [1%nat] /\
   let l' := Scan.move (Scan.Press all_ok Scan.ScanAnotherPlant) l in
   exists t, calls l' !! 3%nat = Some t /\
             active_streams (camera (advance t (page l')).2) = [1%nat; 2%nat]) /\
  Scan.panels (Scan.state (ui (page l))) = [Scan.VideoPanel; Scan.ResultPanel] /\
  Scan.offered Scan.ScanAnotherPlant (Scan.state (ui (page l))) = true /\
  let l' := Scan.move (Scan.Press all_ok Scan.ScanAnotherPlant) l in
  exists t,
    calls l' !! length (calls l) = Some t /\
    let h := (advance t (page l')).2 in
    match getUserMedia all_ok with
    | inr n =>
        let j := length (camera (page l)) in
        Scan.stream (Scan.state (ui h)) = Some j /\
        camera h = camera (page l) ++ [replicate n (mkTrack false 0)] /\
        is_active (camera h) 1 = true /\
        Scan.videoRef (ui h) = Some (Some j) /\
        is_active (camera (Scan.render h)) 1 = false /\
        Scan.panels (Scan.state (ui (Scan.render h))) = [Scan.VideoPanel]
    | inl _ =>
        Scan.stream (Scan.state (ui h)) = Some 1%nat /\
        camera h = camera (page l) /\
        Scan.panels (Scan.state (ui (Scan.render h))) = [Scan.VideoPanel]
    end.
Proof.
  split.
  - split; [vm_compute; reflexivity|]. split; [vm_compute; reflexivity|].
    split; [vm_compute; reflexivity|]. eexists; split; vm_compute; reflexivity.
  - exact (scan_another_while_capturing
           (Scan.moves retake_while_analyzing
              (mkLive (Scan.run photo_taken (Scan.initial (Some u1))) []))
           all_ok 1%nat None blight
           ltac:(vm_compute; reflexivity) ltac:(vm_compute; reflexivity)
           ltac:(vm_compute; reflexivity) ltac:(vm_compute; reflexivity)
           ltac:(vm_compute; reflexivity) ltac:(vm_compute; reflexivity)).
Defined.

(** X22 on the history page that lists two scans. *)
Lemma two_deletions_witness :
  let l := History.moves
             [History.PressDelete all_ok "scan-1" (public leaf_path);
              History.PressDelete all_ok "scan-2" (public later_path);
              History.Settle 0; History.Settle 0; History.Settle 1; History.Settle 1]
             (mkLive history_page_two []) in
  History.scans (ui (page l)) = [leaf_row] /\
  plant_scans (page l) = [] /\
  storage (page l) = ∅ /\
  leaf_row ∈ History.scans (ui (page l)) /\ leaf_row ∉ plant_scans (page l).
Proof.
  pose proof (two_deletions_in_flight history_page_two all_ok all_ok
                "scan-1" "scan-2" (public leaf_path) (public later_path)
                leaf_path later_path eq_refl eq_refl eq_refl eq_refl)
    as (_ & Hl & Ht & _ & Hr).
  split; [exact Hl|]. split; [exact Ht|]. split; [by vm_compute|].
  exact (Hr ltac:(discriminate) leaf_row
           (list_elem_of_further _ _ _ (list_elem_of_here _ _)) eq_refl).
Defined.
